(** * SimpleScraper: a shallow embedding of [simplescraper.py]

    The development follows the source file top to bottom.  Python [str]
    values are modelled as Rocq strings holding their UTF-8 bytes; every
    string operation the program uses ([split], [strip], [replace],
    [startswith], [index], the two regular expressions of the file name
    derivation) looks only at ASCII characters, so it acts on the bytes
    exactly as it acts on the code points, and [str.encode()] is the
    identity.  Logging calls have no effect on the program's results and
    are left out. *)

From Stdlib Require Import Ascii ZArith Lia.
From stdpp Require Import gmap strings list.

Local Open Scope Z_scope.
Local Open Scope nat_scope.

(** ** Python string primitives *)

(** [s.startswith(p)] *)
Fixpoint startswith (s p : string) {struct p} : bool :=
  match p, s with
  | EmptyString, _ => true
  | String _ _, EmptyString => false
  | String a p', String b s' => if Ascii.eqb a b then startswith s' p' else false
  end.

(** [c in s] for a one-character [c] *)
Fixpoint has_char (c : ascii) (s : string) : bool :=
  match s with
  | EmptyString => false
  | String a s' => if Ascii.eqb a c then true else has_char c s'
  end.

(** [sub in s] *)
Fixpoint contains (s sub : string) : bool :=
  if startswith s sub then true
  else match s with
       | EmptyString => false
       | String _ s' => contains s' sub
       end.

(** [s.endswith(e)]: some suffix of [s] is [e]. *)
Fixpoint endswith (s e : string) : bool :=
  if String.eqb s e then true
  else match s with
       | EmptyString => false
       | String _ s' => endswith s' e
       end.

(** [s.split(sep)] for a non-empty separator: the text is scanned from the
    left, every occurrence of [sep] found closes the current piece and the
    scan resumes after it.  [skip] counts the characters of a separator
    that are still to be passed over.  The result is the current piece and
    the pieces after it. *)
Fixpoint split_go (sep : string) (skip : nat) (s : string) : string * list string :=
  match s with
  | EmptyString => (EmptyString, [])
  | String c s' =>
      match skip with
      | S k => split_go sep k s'
      | O =>
          if startswith s sep
          then (EmptyString,
                let '(p, ps) := split_go sep (String.length sep - 1) s' in p :: ps)
          else let '(p, ps) := split_go sep 0 s' in (String c p, ps)
      end
  end.

Definition split (sep s : string) : list string :=
  let '(p, ps) := split_go sep 0 s in p :: ps.

(** [s.split(sep)[0]] *)
Definition split_first (sep s : string) : string := fst (split_go sep 0 s).

(** [sep.join(l)] *)
Fixpoint join (sep : string) (l : list string) : string :=
  match l with
  | [] => EmptyString
  | [x] => x
  | x :: l' => x +:+ sep +:+ join sep l'
  end.

(** [s.lstrip(c)], [s.rstrip(c)] and [s.strip(c)] for a one-character [c] *)
Fixpoint lstrip (c : ascii) (s : string) : string :=
  match s with
  | EmptyString => EmptyString
  | String a s' => if Ascii.eqb a c then lstrip c s' else s
  end.

Fixpoint rstrip (c : ascii) (s : string) : string :=
  match s with
  | EmptyString => EmptyString
  | String a s' =>
      match rstrip c s' with
      | EmptyString => if Ascii.eqb a c then EmptyString else String a EmptyString
      | r => String a r
      end
  end.

Definition strip (c : ascii) (s : string) : string := rstrip c (lstrip c s).

(** [s.replace(a, b)] for one-character [a] and [b] *)
Fixpoint replace_char (a b : ascii) (s : string) : string :=
  match s with
  | EmptyString => EmptyString
  | String c s' => String (if Ascii.eqb c a then b else c) (replace_char a b s')
  end.

(** [s[s.index(c) + 1:]] when [c in s] *)
Fixpoint after_first (c : ascii) (s : string) : option string :=
  match s with
  | EmptyString => None
  | String a s' => if Ascii.eqb a c then Some s' else after_first c s'
  end.

(** ** [get_srcset_urls_from_tags], on one attribute value

    [[i.split(" ")[0] for i in raw_srcset.split(", ")]] *)
Definition srcset_urls (raw_srcset : string) : list string :=
  map (split_first " ") (split ", " raw_srcset).

(** ** [get_usable_filename_from_url] *)

(** [re.sub(r'(?<=EXT)(\?[^/]+)$', '', s)] for a literal [EXT].  A match at
    a position needs [EXT] right before it, a question mark at it, and then
    one or more characters other than a slash up to the end of the text:
    [[^/]+] also takes a final newline, so the [$] is always met at the very end
    and a match runs to the end of the text.  The leftmost match is
    replaced by the empty string and nothing is left to search after it.
    [seen] is the text before the current position. *)
Fixpoint sub_query_after (ext : string) (seen s : string) : string :=
  match s with
  | EmptyString => EmptyString
  | String c s' =>
      if Ascii.eqb c "?" && endswith seen ext
         && negb (String.eqb s' EmptyString) && negb (has_char "/" s')
      then EmptyString
      else String c (sub_query_after ext (seen +:+ String c EmptyString) s')
  end.

Definition get_usable_filename_from_url (url : string) : string :=
  let cleaned_url := match after_first ":" url with
                     | Some rest => rest
                     | None => url
                     end in
  let cleaned_url := replace_char "/" "_" (strip "/" cleaned_url) in
  let cleaned_url := sub_query_after ".css" "" cleaned_url in
  let cleaned_url := sub_query_after ".js" "" cleaned_url in
  cleaned_url.

(** ** [os.path] helpers (POSIX) *)

(** [os.path.join(a, b)] *)
Definition path_join (a b : string) : string :=
  if startswith b "/" then b
  else if String.eqb a "" || endswith a "/" then a +:+ b
  else a +:+ "/" +:+ b.

(** [os.path.split(p)[-1]]: the text after the last slash *)
Fixpoint path_tail (p : string) : string :=
  match p with
  | EmptyString => EmptyString
  | String _ p' => if has_char "/" p then path_tail p' else p
  end.

(** ** Exceptions and results *)

Inductive exn : Type :=
  | RequestException (msg : string)   (* any exception out of [requests] *)
  | KeyError (key : string)
  | OSError (path : string)
  | ReError (template : string)       (* [re.error] *)
  | UnboundLocalError (name : string)
  | ValueError (msg : string).

Inductive result (A : Type) : Type :=
  | Ok (a : A)
  | Raise (e : exn).
Arguments Ok {A} a.
Arguments Raise {A} e.

(** ** The page as [BeautifulSoup] presents it

    The tags of the document in document order.  With [html.parser] the
    value of an attribute is a [str], except for the attributes of the
    builder's fixed list ([class], [rel], [rev], ...), whose value is the
    list of their whitespace-separated tokens; the program reads [src],
    [srcset] and [href] (always [str]) and [rel] of [link] tags (always a
    list).  The two kinds are kept in two dictionaries. *)
Record Tag : Type := {
  tag_name : string;
  attrs : gmap string string;
  list_attrs : gmap string (list string)
}.

(** [soup.find_all(name)] *)
Definition find_all (name : string) (soup : list Tag) : list Tag :=
  filter (fun t => tag_name t = name) soup.

(** ** HTTP responses

    What the session answers to a GET: an exception, or a response whose
    body arrives as a sequence of chunks, after which the stream may break
    with an exception ([cut]). *)
Record Response : Type := {
  status_code : Z;
  url : string;                (* the final URL, after redirects *)
  chunks : list string
}.

Inductive outcome : Type :=
  | Answer (r : Response) (cut : option exn)
  | Failure (e : exn).

(** [r.content] *)
Definition content (r : Response) : string := String.concat "" (chunks r).

(** ** The world the program runs in

    [history] lists the URLs requested so far, oldest first; [files] maps a
    file to its bytes; [archives] maps a zip file to its members, each
    recorded as the name handed to [ZipFile.write] and the bytes read for
    it; [dirs] are the directories known to exist. *)
Record World : Type := {
  history : list string;
  files : gmap string string;
  archives : gmap string (list (string * string));
  dirs : gset string
}.

Definition log_request (u : string) (w : World) : World :=
  {| history := history w ++ [u]; files := files w;
     archives := archives w; dirs := dirs w |}.

Definition set_file (k c : string) (w : World) : World :=
  {| history := history w; files := <[k := c]> (files w);
     archives := archives w; dirs := dirs w |}.

Definition set_archive (k : string) (ms : list (string * string)) (w : World) : World :=
  {| history := history w; files := files w;
     archives := <[k := ms]> (archives w); dirs := dirs w |}.

Definition add_dir (d : string) (w : World) : World :=
  {| history := history w; files := files w;
     archives := archives w; dirs := {[d]} ∪ dirs w |}.

(** ** What the program takes from its libraries and from the system

    [server h u] is the answer to a GET of [u] after the requests [h];
    [urljoin] is [urllib.parse.urljoin], which raises [ValueError] on
    references it cannot split (an unclosed bracket in the host part);
    [realpath] gives the file a path string designates (a relative path is
    taken from the working directory); [can_open] tells whether
    [open(path, 'wb')] succeeds; [set_list] is [list(set(l))], whose order
    Python leaves open; [compile_template] is what [re.sub] does with its
    replacement argument before it searches: a replacement without a
    backslash is used as it is, any other goes through the template
    compiler, which raises [re.error] or yields the text to insert for a
    given match. *)
Class Runtime : Type := {
  getcwd : string;
  abspath : string -> string;
  realpath : string -> string;
  can_open : string -> bool;
  can_mkdir : string -> bool;
  server : list string -> string -> outcome;
  parse_html : string -> list Tag;
  urljoin : string -> string -> result string;
  set_list : list (string * string) -> list (string * string);
  set_list_NoDup : forall l, NoDup (set_list l);
  set_list_elem : forall l x, x ∈ set_list l <-> x ∈ l;
  regex : Type;
  re_compile : string -> option regex;
  re_search : regex -> string -> bool;
  compile_template : string -> option (string -> string);
  compile_template_literal :
    forall r, has_char "\" r = false -> compile_template r = Some (fun _ => r)
}.

(** ** A state and exception monad for the effectful functions *)

Definition M (A : Type) : Type := World -> result A * World.

Definition ret {A} (a : A) : M A := fun w => (Ok a, w).
Definition raise {A} (e : exn) : M A := fun w => (Raise e, w).
Definition bind {A B} (m : M A) (k : A -> M B) : M B :=
  fun w => match m w with
           | (Ok a, w') => k a w'
           | (Raise e, w') => (Raise e, w')
           end.
Definition lift {A} (r : result A) : M A := fun w => (r, w).

Notation "'do' x <- m ; k" := (bind m (fun x => k))
  (at level 10, x name, m at level 100, k at level 200).
Notation "'run' m ; k" := (bind m (fun _ => k))
  (at level 10, m at level 100, k at level 200).

(** [for x in l: body(x)] *)
Fixpoint for_each {A} (l : list A) (body : A -> M unit) : M unit :=
  match l with
  | [] => ret tt
  | x :: l' => run body x; for_each l' body
  end.

(** [re.sub(re.escape(key), repl, s)] once [repl] is known to be the text
    [ins]: every occurrence of the literal [key], found from the left
    without overlap, is replaced.  The empty key matches before every
    character and at the end. *)
Fixpoint insert_everywhere (ins s : string) : string :=
  ins +:+ match s with
          | EmptyString => EmptyString
          | String c s' => String c (insert_everywhere ins s')
          end.

Fixpoint replace_go (key ins : string) (skip : nat) (s : string) : string :=
  match s with
  | EmptyString => EmptyString
  | String c s' =>
      match skip with
      | S k => replace_go key ins k s'
      | O =>
          if startswith s key
          then ins +:+ replace_go key ins (String.length key - 1) s'
          else String c (replace_go key ins 0 s')
      end
  end.

Definition replace_all (key ins s : string) : string :=
  if String.eqb key "" then insert_everywhere ins s else replace_go key ins 0 s.

Section Program.
Context {rt : Runtime}.

(** [re.sub(re.escape(key), repl, s)] *)
Definition re_sub_escaped (key repl s : string) : result string :=
  match compile_template repl with
  | None => Raise (ReError repl)
  | Some expand => Ok (replace_all key (expand key) s)
  end.

(** [s.get(url)]: the body is read before the call returns, so a stream
    that breaks makes the call raise. *)
Definition session_get (u : string) : M Response :=
  fun w =>
    let w' := log_request u w in
    match server (history w) u with
    | Failure e => (Raise e, w')
    | Answer r (Some e) => (Raise e, w')
    | Answer r None => (Ok r, w')
    end.

(** [open(path, 'wb')] followed by the writes of [data]: the file is
    created or emptied, then filled. *)
Definition write_file (path data : string) : M unit :=
  fun w =>
    if can_open path then (Ok tt, set_file (realpath path) data w)
    else (Raise (OSError path), w).

(** ** [get_retry] *)

(** The values [r] takes in [get_retry]: a response, or the class
    [requests.Response] itself, on which the handler sets
    [status_code = 0]. *)
Inductive retry_value : Type :=
  | Got (r : Response)
  | ResponseClass.

Definition rv_status (v : retry_value) : Z :=
  match v with
  | Got r => status_code r
  | ResponseClass => 0%Z
  end.

(** The loop over [range(max_retries)], [todo] iterations before its end;
    [r] is [None] as long as the variable is unbound. *)
Fixpoint get_retry_loop (todo : nat) (retry_no max_retries : Z)
    (r : option retry_value) (u : string) : M retry_value :=
  match todo with
  | O => match r with
         | Some v => ret v
         | None => raise (UnboundLocalError "r")
         end
  | S todo' =>
      fun w =>
        match session_get u w with
        | (Ok resp, w') =>
            if (rv_status (Got resp) =? 200)%Z then (Ok (Got resp), w')
            else get_retry_loop todo' (retry_no + 1)%Z max_retries (Some (Got resp)) u w'
        | (Raise err, w') =>
            if (retry_no =? max_retries - 1)%Z then (Raise err, w')
            else if (rv_status ResponseClass =? 200)%Z then (Ok ResponseClass, w')
            else get_retry_loop todo' (retry_no + 1)%Z max_retries (Some ResponseClass) u w'
        end
  end.

Definition get_retry (u : string) (max_retries : Z) : M retry_value :=
  get_retry_loop (Z.to_nat max_retries) 0%Z max_retries None u.

(** ** The extractors *)

Definition get_srcset_urls_from_tags (tags : list Tag) : list string :=
  let sources_srcsets_raw := omap (fun source => attrs source !! "srcset") tags in
  let sources_srcsets := map srcset_urls sources_srcsets_raw in
  concat sources_srcsets.

(** [(urljoin(response.url, src), src) if not src.startswith('http') else (src, src)] *)
Definition resolve_pair (response : Response) (src : string) : result (string * string) :=
  if negb (startswith src "http") then
    match urljoin (url response) src with
    | Ok u => Ok (u, src)
    | Raise e => Raise e
    end
  else Ok (src, src).

(** The comprehension [[... for src in srcs]]: the pairs in order, or the
    exception of the first [urljoin] that raises. *)
Fixpoint resolve_all (response : Response) (srcs : list string)
    : result (list (string * string)) :=
  match srcs with
  | [] => Ok []
  | src :: srcs' =>
      match resolve_pair response src with
      | Raise e => Raise e
      | Ok p =>
          match resolve_all response srcs' with
          | Ok ps => Ok (p :: ps)
          | Raise e => Raise e
          end
      end
  end.

Definition get_img_links (soup : list Tag) (response : Response)
    : result (list (string * string)) :=
  let imgs := find_all "img" soup in
  let img_srcs := omap (fun img => attrs img !! "src") imgs in
  let img_srcsets := get_srcset_urls_from_tags imgs in
  let all_src_links := img_srcs ++ img_srcsets in
  match resolve_all response all_src_links with
  | Raise e => Raise e
  | Ok links => Ok (set_list links)
  end.

Definition get_source_links (soup : list Tag) (response : Response)
    : result (list (string * string)) :=
  let sources := find_all "source" soup in
  let sources_srcs := omap (fun source => attrs source !! "src") sources in
  let sources_srcsets := get_srcset_urls_from_tags sources in
  let all_src_links := sources_srcs ++ sources_srcsets in
  match resolve_all response all_src_links with
  | Raise e => Raise e
  | Ok links => Ok (set_list links)
  end.

(** [[link['href'] for link in links if link.has_attr('rel') is True and
    link['rel'] == ['stylesheet']]]: the comprehension raises [KeyError] at
    the first selected tag without [href]. *)
Fixpoint stylesheet_hrefs (links : list Tag) : result (list string) :=
  match links with
  | [] => Ok []
  | link :: links' =>
      if bool_decide (list_attrs link !! "rel" = Some ["stylesheet"])
      then match attrs link !! "href" with
           | None => Raise (KeyError "href")
           | Some href =>
               match stylesheet_hrefs links' with
               | Ok hrefs => Ok (href :: hrefs)
               | Raise e => Raise e
               end
           end
      else stylesheet_hrefs links'
  end.

Definition get_stylesheet_links (soup : list Tag) (response : Response)
    : result (list (string * string)) :=
  let links := find_all "link" soup in
  match stylesheet_hrefs links with
  | Raise e => Raise e
  | Ok link_srcs =>
      match resolve_all response link_srcs with
      | Raise e => Raise e
      | Ok links => Ok (set_list links)
      end
  end.

Definition get_js_links (soup : list Tag) (response : Response)
    : result (list (string * string)) :=
  let links := find_all "script" soup in
  let link_srcs := omap (fun link => attrs link !! "src") links in
  match resolve_all response link_srcs with
  | Raise e => Raise e
  | Ok links => Ok (set_list links)
  end.

(** ** [download_media]

    [s.get(url, stream=True)] returns once the headers are read; the file
    is then opened and receives the non-empty chunks as they arrive, so a
    stream that breaks leaves the chunks written so far. *)
Definition download_media (u destination : string) : M unit :=
  fun w =>
    let w' := log_request u w in
    match server (history w) u with
    | Failure e => (Raise e, w')
    | Answer r cut =>
        if can_open destination then
          let written := String.concat "" (filter (fun chunk => chunk <> "") (chunks r)) in
          let w'' := set_file (realpath destination) written w' in
          match cut with
          | None => (Ok tt, w'')
          | Some e => (Raise e, w'')
          end
        else (Raise (OSError destination), w')
    end.

(** ** [zip_files] *)

(** The members written by the loop over [new_files]: [z.write(filename)]
    reads the file, and the first one that cannot be read ends the loop
    with an exception. *)
Fixpoint zip_members (fs : gmap string string) (new_files : list string)
    : list (string * string) :=
  match new_files with
  | [] => []
  | filename :: rest =>
      match fs !! realpath filename with
      | None => []
      | Some data => (filename, data) :: zip_members fs rest
      end
  end.

Definition zipfile_name_of (destination_dir : string) : string :=
  let zipfile_name :=
    if String.eqb getcwd destination_dir then "site" else path_tail destination_dir in
  zipfile_name +:+ ".zip".

(** Every exception is caught, and the [with] statement closes the archive
    with the members written before it. *)
Definition zip_files (new_files : list string) (destination_dir : string) : M unit :=
  fun w =>
    let zipfile_name := zipfile_name_of destination_dir in
    if can_open zipfile_name
    then (Ok tt, set_archive (realpath zipfile_name) (zip_members (files w) new_files) w)
    else (Ok tt, w).

(** ** [copy_page] *)

Record Args : Type := {
  ignore_js : bool;
  zip : bool;
  ignore : option string
}.

(** Lines 144-151: the ignore filter and its [try]/[except]. *)
Definition apply_ignore (args : Args) (all_additional_links : list (string * string))
    : list (string * string) :=
  match ignore args with
  | None => all_additional_links
  | Some pattern =>
      match re_compile pattern with
      | Some ignore_regex =>
          filter (fun p => re_search ignore_regex (snd p) = false) all_additional_links
      | None => all_additional_links
      end
  end.

(** Lines 155-169: the loop over the links, on the pair
    [(updated_page, created_files_relative_path)]. *)
Fixpoint download_links (destination_dir destdir_name : string)
    (links : list (string * string)) (updated_page : string)
    (created_files_relative_path : list string) : M (string * list string) :=
  match links with
  | [] => ret (updated_page, created_files_relative_path)
  | (link, rel_link) :: links' =>
      let new_filename := get_usable_filename_from_url link in
      let dest := path_join destination_dir new_filename in
      fun w =>
        match download_media link dest w with
        | (Raise _, w') =>
            download_links destination_dir destdir_name links'
              updated_page created_files_relative_path w'
        | (Ok _, w') =>
            let replacement_path := path_join "." new_filename in
            let created := created_files_relative_path
                             ++ [path_join destdir_name new_filename] in
            match re_sub_escaped rel_link replacement_path updated_page with
            | Raise e => (Raise e, w')
            | Ok page' =>
                download_links destination_dir destdir_name links' page' created w'
            end
        end
  end.

(** Lines 137-143: the links of the page, in the order they are processed. *)
Definition collect_links (args : Args) (r : Response) : result (list (string * string)) :=
  let soup := parse_html (content r) in
  match get_img_links soup r with
  | Raise e => Raise e
  | Ok img_links =>
      match get_stylesheet_links soup r with
      | Raise e => Raise e
      | Ok stylesheet_links =>
          match get_source_links soup r with
          | Raise e => Raise e
          | Ok source_links =>
              match (if negb (ignore_js args) then get_js_links soup r else Ok []) with
              | Raise e => Raise e
              | Ok js_links =>
                  Ok (img_links ++ stylesheet_links ++ js_links ++ source_links)
              end
          end
      end
  end.

Definition copy_page (u destination_dir : string) (args : Args) : M unit :=
  do r <- session_get u;
  if negb (status_code r =? 200)%Z then ret tt
  else
    let base_page_filename := "index.html" in
    let destdir_name :=
      if String.eqb getcwd destination_dir then "." else path_tail destination_dir in
    let base_page_path := path_join destination_dir base_page_filename in
    run write_file base_page_path (content r);
    do all_additional_links <- lift (collect_links args r);
    let all_additional_links := apply_ignore args all_additional_links in
    do st <- download_links destination_dir destdir_name all_additional_links (content r) [];
    let '(updated_page, created_files_relative_path) := st in
    run (if zip args then zip_files created_files_relative_path destination_dir else ret tt);
    write_file base_page_path updated_page.

(** ** [main] *)

(** [os.mkdir(d)] *)
Definition mkdir (d : string) : M unit :=
  fun w => if can_mkdir d then (Ok tt, add_dir d w) else (Raise (OSError d), w).

Definition main (urls : list string) (destination_dir : string) (args : Args) : M unit :=
  let destination_dir := abspath destination_dir in
  run (fun w => if bool_decide (destination_dir ∈ dirs w) then (Ok tt, w)
                else mkdir destination_dir w);
  for_each urls (fun u => copy_page u destination_dir args).

End Program.

(** * Notions used to state the properties *)

(** ** The candidate lists of a [srcset] attribute, as the specification
    words them

    A candidate is a URL, optionally followed by a space and a descriptor;
    the attribute value is the list of the candidates' texts, joined by a
    separator. *)
Record candidate : Type := {
  cand_url : string;
  cand_descriptor : option string
}.

Definition candidate_text (c : candidate) : string :=
  match cand_descriptor c with
  | None => cand_url c
  | Some d => cand_url c +:+ " " +:+ d
  end.

(** The last character of a text decides what it can end with. *)
Fixpoint last_char (s : string) : option ascii :=
  match s with
  | EmptyString => None
  | String c s' => match last_char s' with
                   | None => Some c
                   | Some d => Some d
                   end
  end.

(** [n] slashes in a row. *)
Fixpoint slashes (n : nat) : string :=
  match n with
  | O => EmptyString
  | S k => String "/" (slashes k)
  end.

(** [s] ends with [e]. *)
Definition has_suffix (s e : string) : Prop := exists p, s = p +:+ e.

(** [t] is what [re.sub(r'(?<=EXT)(\?[^/]+)$', '', s)] leaves of a text [s]
    without a slash: [s] up to the first question mark that comes right
    after [ext] and has a character after it, and [s] itself when there is
    no such question mark. *)
Definition cut_query (ext s t : string) : Prop :=
  (exists q, s = t +:+ "?" +:+ q /\ q <> "" /\ has_suffix t ext
     /\ forall a q', s = a +:+ "?" +:+ q' -> q' <> "" -> has_suffix a ext ->
           String.length t <= String.length a)
  \/ (t = s
      /\ forall a q', s = a +:+ "?" +:+ q' -> q' <> "" -> ~ has_suffix a ext).


Section Observations.
Context {rt : Runtime}.

(** The world after [k] requests of [u], and the result of the GET that
    comes after them. *)
Definition after_requests (w : World) (u : string) (k : nat) : World :=
  Nat.iter k (log_request u) w.

Definition attempt (w : World) (u : string) (k : nat) : result Response :=
  fst (session_get u (after_requests w u k)).

Definition is_not_200 (x : result Response) : Prop :=
  match x with
  | Ok r => status_code r <> 200%Z
  | Raise _ => True
  end.

(** The pairs whose download succeeds when the loop runs over [links] from
    the world [w], and the world the downloads leave. *)
Fixpoint downloaded (destination_dir : string) (links : list (string * string))
    (w : World) : list (string * string) :=
  match links with
  | [] => []
  | (link, rel_link) :: links' =>
      let dest := path_join destination_dir (get_usable_filename_from_url link) in
      match download_media link dest w with
      | (Ok _, w') => (link, rel_link) :: downloaded destination_dir links' w'
      | (Raise _, w') => downloaded destination_dir links' w'
      end
  end.

Fixpoint world_after (destination_dir : string) (links : list (string * string))
    (w : World) : World :=
  match links with
  | [] => w
  | (link, _) :: links' =>
      let dest := path_join destination_dir (get_usable_filename_from_url link) in
      world_after destination_dir links' (snd (download_media link dest w))
  end.

(** The substitutions of the pairs [done], applied in order. *)
Fixpoint apply_subs (done : list (string * string)) (page : string) : result string :=
  match done with
  | [] => Ok page
  | (link, rel_link) :: done' =>
      match re_sub_escaped rel_link
              (path_join "." (get_usable_filename_from_url link)) page with
      | Ok page' => apply_subs done' page'
      | Raise e => Raise e
      end
  end.

Definition packaged_name (destdir_name : string) (p : string * string) : string :=
  path_join destdir_name (get_usable_filename_from_url (fst p)).

(** The files of [w'] differ from those of [w] only at names formed by
    [os.path.join(d, f)] for an [f] without a slash. *)
Definition writes_within (d : string) (w w' : World) : Prop :=
  forall k, files w' !! k <> files w !! k ->
    exists f, has_char "/" f = false /\ k = realpath (path_join d f).

(** [u] is the URL the extractors give the reference [src] read from the
    response [r]: the text itself when it starts with [http], what
    [urljoin] returns otherwise. *)
Definition resolves (r : Response) (src u : string) : Prop :=
  if startswith src "http" then u = src else urljoin (url r) src = Ok u.

(** What an extractor over the references [read] may answer: a list
    without repetition of exactly the pairs of the references, all of which
    resolve; or the exception of [urljoin] on one of them. *)
Definition links_of (r : Response) (read : string -> Prop)
    (res : result (list (string * string))) : Prop :=
  match res with
  | Ok links =>
      NoDup links
      /\ (forall src, read src -> exists u, resolves r src u)
      /\ (forall u src, (u, src) ∈ links <-> read src /\ resolves r src u)
  | Raise e =>
      exists src, read src /\ startswith src "http" = false
                  /\ urljoin (url r) src = Raise e
  end.

End Observations.


(** * Example sites *)

(** ** A concrete runtime, for running the program on examples

    A closed instance of [Runtime] over a given server and parser.  Paths
    are resolved against the working directory [/home/u]; a path ending in
    a slash designates a directory and cannot be opened; [urljoin] is given
    for a base that is the root of a site, where it agrees with
    [urllib.parse.urljoin] on absolute-path and bare relative references,
    and raises on a network-path reference holding one of the two square
    brackets without the other;
    patterns are literal texts, and an opening parenthesis fails to
    compile; a replacement holding a backslash is refused. *)
Definition example_realpath (p : string) : string :=
  if startswith p "/" then p
  else match p with
       | String "." (String "/" p') => "/home/u/" +:+ p'
       | _ => "/home/u/" +:+ p
       end.

Definition example_urljoin (base ref : string) : result string :=
  if startswith ref "//" && xorb (has_char "[" ref) (has_char "]" ref)
  then Raise (ValueError "Invalid IPv6 URL")
  else if startswith ref "/" then Ok (rstrip "/" base +:+ ref)
  else Ok (base +:+ ref).

Definition example_template (r : string) : option (string -> string) :=
  if has_char "\" r then None else Some (fun _ => r).

Definition example_runtime (srv : list string -> string -> outcome)
    (parse : string -> list Tag) : Runtime :=
  {| getcwd := "/home/u";
     abspath := fun p => if startswith p "/" then p else path_join "/home/u" p;
     realpath := example_realpath;
     can_open := fun p => negb (endswith p "/");
     can_mkdir := fun _ => true;
     server := srv;
     parse_html := parse;
     urljoin := example_urljoin;
     set_list := remove_dups;
     set_list_NoDup := NoDup_remove_dups;
     set_list_elem := fun l x => elem_of_remove_dups l x;
     regex := string;
     re_compile := fun p => if has_char "(" p then None else Some p;
     re_search := fun rx s => contains s rx;
     compile_template := example_template;
     compile_template_literal := fun r H =>
       @eq_ind_r bool false
         (fun b : bool =>
            (if b then None else Some (fun _ : string => r))
            = Some (fun _ : string => r))
         eq_refl (has_char "\" r) H |}.

Definition empty_world : World :=
  {| history := []; files := ∅; archives := ∅; dirs := ∅ |}.

(** The fixture of the end-to-end examples: a page with one image and one
    stylesheet. *)
Definition page_html : string :=
  "<img src='/a.png'><link rel='stylesheet' href='/s.css'>".

Definition page_tags : list Tag :=
  [ {| tag_name := "img"; attrs := {[ "src" := "/a.png" ]}; list_attrs := ∅ |};
    {| tag_name := "link"; attrs := {[ "href" := "/s.css" ]};
       list_attrs := {[ "rel" := ["stylesheet"] ]} |} ].

Definition page_parse (html : string) : list Tag :=
  if String.eqb html page_html then page_tags else [].

Definition page_server (h : list string) (u : string) : outcome :=
  if String.eqb u "http://x.com/" then
    Answer {| status_code := 200; url := "http://x.com/"; chunks := [page_html] |} None
  else if String.eqb u "http://x.com/a.png" then
    Answer {| status_code := 200; url := u; chunks := ["PNG"; ""; "DATA"] |} None
  else if String.eqb u "http://x.com/s.css" then
    Answer {| status_code := 404; url := u; chunks := ["Not Found"] |} None
  else Failure (RequestException "connection refused").

Definition page_rt : Runtime := example_runtime page_server page_parse.


(** A server that answers every request with a 404 page. *)
Definition not_found : Response :=
  {| status_code := 404; url := "http://x.com/missing"; chunks := ["Not Found"] |}.

Definition missing_rt : Runtime :=
  example_runtime (fun _ _ => Answer not_found None) (fun _ => []).

(** A stylesheet link without [href], as in [<link rel='stylesheet'>], and
    a site whose page holds it. *)
Definition bare_stylesheet_link : Tag :=
  {| tag_name := "link"; attrs := ∅; list_attrs := {[ "rel" := ["stylesheet"] ]} |}.

Definition bare_link_rt : Runtime :=
  example_runtime
    (fun _ u => Answer {| status_code := 200; url := u;
                          chunks := ["<link rel='stylesheet'>"] |} None)
    (fun html => if String.eqb html "<link rel='stylesheet'>"
                 then [bare_stylesheet_link] else []).

(** A page with two images, the reference of the first being the start
    of the reference of the second; the second image cannot be fetched. *)
Definition overlap_html : string := "<img src='/a.png'><img src='/a.png.bak'>".

Definition overlap_rt : Runtime :=
  example_runtime
    (fun _ u =>
       if String.eqb u "http://x.com/" then
         Answer {| status_code := 200; url := u; chunks := [overlap_html] |} None
       else if String.eqb u "http://x.com/a.png" then
         Answer {| status_code := 200; url := u; chunks := ["PNG"] |} None
       else Failure (RequestException "connection refused"))
    (fun html =>
       if String.eqb html overlap_html
       then [ {| tag_name := "img"; attrs := {[ "src" := "/a.png" ]}; list_attrs := ∅ |};
              {| tag_name := "img"; attrs := {[ "src" := "/a.png.bak" ]};
                 list_attrs := ∅ |} ]
       else []).






(** Two sites: the first cannot be reached, the second answers. *)
Definition unreachable_rt : Runtime :=
  example_runtime
    (fun _ u =>
       if String.eqb u "http://y.com/" then
         Answer {| status_code := 200; url := u; chunks := ["<p>y</p>"] |} None
       else Failure (RequestException "connection refused"))
    (fun _ => []).

(** * Properties *)

(** ** String lemmas *)

#[local] Arguments Ascii.eqb : simpl never.
#[local] Arguments String.eqb : simpl never.

Lemma append_cons a s t : String a s +:+ t = String a (s +:+ t).
Proof. reflexivity. Qed.

Lemma append_nil_l s : "" +:+ s = s.
Proof. reflexivity. Qed.

Lemma append_nil_r s : s +:+ "" = s.
Proof. induction s as [|a s IH]; [reflexivity|]. rewrite append_cons, IH. reflexivity. Qed.

Lemma append_assoc s t u : (s +:+ t) +:+ u = s +:+ (t +:+ u).
Proof.
  induction s as [|a s IH]; [reflexivity|].
  rewrite !append_cons, IH. reflexivity.
Qed.

Lemma length_append s t : String.length (s +:+ t) = String.length s + String.length t.
Proof.
  induction s as [|a s IH]; [reflexivity|].
  rewrite append_cons. simpl. rewrite IH. reflexivity.
Qed.

Lemma startswith_app p s : startswith (p +:+ s) p = true.
Proof.
  induction p as [|a p IH]; [destruct s; reflexivity|].
  rewrite append_cons. simpl. rewrite Ascii.eqb_refl. exact IH.
Qed.

Lemma startswith_spec s p : startswith s p = true <-> exists r, s = p +:+ r.
Proof.
  split.
  - revert s. induction p as [|a p IH]; intros s H.
    + exists s. reflexivity.
    + destruct s as [|b s]; simpl in H; [discriminate|].
      destruct (Ascii.eqb_spec a b) as [->|]; [|discriminate].
      destruct (IH _ H) as [r ->]. exists r. reflexivity.
  - intros [r ->]. apply startswith_app.
Qed.

Lemma has_char_app c s t : has_char c (s +:+ t) = has_char c s || has_char c t.
Proof.
  induction s as [|a s IH]; [reflexivity|].
  rewrite append_cons. simpl. destruct (Ascii.eqb a c); [reflexivity|exact IH].
Qed.

(** ** [split] on comma-space and on a space *)

Lemma contains_cons_false c s sub :
  contains (String c s) sub = false ->
  startswith (String c s) sub = false /\ contains s sub = false.
Proof.
  intros H. cbn [contains] in H.
  destruct (startswith (String c s) sub); [discriminate|]. split; [reflexivity|exact H].
Qed.

Lemma starts_comma_space_app a t :
  startswith a ", " = false -> a <> "" ->
  startswith (a +:+ ", " +:+ t) ", " = false.
Proof.
  intros H Ha. destruct a as [|c a]; [congruence|].
  rewrite append_cons. cbn in H |- *.
  destruct (Ascii.eqb_spec "," c) as [<-|]; [|reflexivity].
  destruct a as [|d a]; [reflexivity|].
  rewrite append_cons. cbn [startswith] in H |- *.
  destruct (Ascii.eqb " " d); [destruct a; discriminate|reflexivity].
Qed.

Lemma split_go_comma_piece a rest :
  contains a ", " = false ->
  split_go ", " 0 (a +:+ ", " +:+ rest) = (a, split ", " rest).
Proof.
  induction a as [|c a IH]; intros H.
  - reflexivity.
  - apply contains_cons_false in H as [Hs Hc].
    pose proof (starts_comma_space_app (String c a) rest Hs) as Hn.
    rewrite append_cons in Hn |- *.
    cbn [split_go]. rewrite Hn by discriminate.
    rewrite (IH Hc). reflexivity.
Qed.

Lemma split_go_comma_last a :
  contains a ", " = false -> split_go ", " 0 a = (a, []).
Proof.
  induction a as [|c a IH]; intros H; [reflexivity|].
  apply contains_cons_false in H as [Hs Hc].
  cbn [split_go]. rewrite Hs, (IH Hc). reflexivity.
Qed.

Lemma split_join_comma_space l :
  l <> [] -> Forall (fun a => contains a ", " = false) l ->
  split ", " (join ", " l) = l.
Proof.
  induction l as [|a l IH]; intros Hne Hall; [congruence|].
  inversion Hall as [|? ? Ha Hl]; subst.
  destruct l as [|b l].
  - cbn [join]. unfold split. rewrite (split_go_comma_last a Ha). reflexivity.
  - change (join ", " (a :: b :: l)) with (a +:+ ", " +:+ join ", " (b :: l)).
    unfold split at 1. rewrite (split_go_comma_piece a _ Ha).
    rewrite IH by (auto; discriminate). reflexivity.
Qed.

Lemma split_first_space_only u :
  has_char " " u = false -> split_go " " 0 u = (u, []).
Proof.
  induction u as [|c u IH]; intros H; [reflexivity|].
  cbn in H. cbn [split_go startswith].
  rewrite Ascii.eqb_sym. destruct (Ascii.eqb c " "); [discriminate|].
  rewrite (IH H). reflexivity.
Qed.

Lemma split_first_space_descr u d :
  has_char " " u = false -> split_first " " (u +:+ " " +:+ d) = u.
Proof.
  unfold split_first. induction u as [|c u IH]; intros H.
  - reflexivity.
  - cbn in H. rewrite append_cons. cbn [split_go startswith].
    rewrite Ascii.eqb_sym. destruct (Ascii.eqb c " "); [discriminate|].
    specialize (IH H). destruct (split_go " " 0 (u +:+ " " +:+ d)) as [p ps].
    cbn in IH |- *. rewrite IH. reflexivity.
Qed.

Lemma split_first_candidate c :
  has_char " " (cand_url c) = false ->
  split_first " " (candidate_text c) = cand_url c.
Proof.
  intros H. unfold candidate_text. destruct (cand_descriptor c) as [d|].
  - apply split_first_space_descr, H.
  - unfold split_first. rewrite split_first_space_only by exact H. reflexivity.
Qed.

(** C6, as amended.  The pieces of a [srcset] value are cut at every comma
    that is followed by one space, and of each piece the text before its
    first space is kept: for candidates (a URL without a space, optionally
    followed by a space and a descriptor, the whole holding no
    comma-space) joined by a comma and one space, the result is exactly the
    candidates' URLs, in order. *)
Theorem srcset_comma_space_candidates (cs : list candidate) :
  cs <> [] ->
  Forall (fun c => has_char " " (cand_url c) = false
                   /\ contains (candidate_text c) ", " = false) cs ->
  srcset_urls (join ", " (map candidate_text cs)) = map cand_url cs.
Proof.
  intros Hne Hall. unfold srcset_urls.
  rewrite split_join_comma_space.
  - rewrite map_map. apply map_ext_in. intros c Hc.
    rewrite Forall_forall in Hall.
    apply split_first_candidate.
    apply (Hall c). apply list_elem_of_In. exact Hc.
  - destruct cs; [congruence|discriminate].
  - apply Forall_map. eapply Forall_impl; [exact Hall|]. intros c [_ H]. exact H.
Qed.

(** The example of the specification, obtained from the theorem. *)
Lemma srcset_comma_space_witness :
  srcset_urls "a.jpg 1x, b.jpg 2x" = ["a.jpg"; "b.jpg"].
Proof.
  apply (srcset_comma_space_candidates
           [ {| cand_url := "a.jpg"; cand_descriptor := Some "1x" |};
             {| cand_url := "b.jpg"; cand_descriptor := Some "2x" |} ]).
  - discriminate.
  - repeat constructor.
Defined.

(** C6, as stated, fails: two candidates separated by a comma alone are
    not told apart, and the second URL is lost. *)
Lemma srcset_comma_only_counterexample :
  ~ (forall cs : list candidate,
       cs <> [] ->
       Forall (fun c => has_char " " (cand_url c) = false
                        /\ has_char "," (candidate_text c) = false) cs ->
       srcset_urls (join "," (map candidate_text cs)) = map cand_url cs).
Proof.
  intros H.
  specialize (H [ {| cand_url := "a.jpg"; cand_descriptor := Some "1x" |};
                  {| cand_url := "b.jpg"; cand_descriptor := Some "2x" |} ]).
  assert (Hne : [ {| cand_url := "a.jpg"; cand_descriptor := Some "1x" |};
                  {| cand_url := "b.jpg"; cand_descriptor := Some "2x" |} ] <> [])
    by discriminate.
  specialize (H Hne). 
  assert (srcset_urls "a.jpg 1x,b.jpg 2x" = ["a.jpg"; "b.jpg"]) as Habs.
  { apply H. repeat constructor. }
  vm_compute in Habs. discriminate Habs.
Qed.

(** ** The file name derivation *)

Lemma after_first_app c s t :
  has_char c s = false -> after_first c (s +:+ String c t) = Some t.
Proof.
  induction s as [|a s IH]; intros H.
  - rewrite append_nil_l. cbn [after_first]. rewrite Ascii.eqb_refl. reflexivity.
  - cbn [has_char] in H. rewrite append_cons. cbn [after_first].
    destruct (Ascii.eqb a c); [discriminate|]. exact (IH H).
Qed.

Lemma replace_char_no_slash s : has_char "/" (replace_char "/" "_" s) = false.
Proof.
  induction s as [|a s IH]; [reflexivity|].
  cbn [replace_char has_char].
  destruct (Ascii.eqb_spec a "/") as [->|Hne]; [exact IH|].
  destruct (Ascii.eqb_spec a "/"); [contradiction|exact IH].
Qed.

Lemma endswith_app p e : endswith (p +:+ e) e = true.
Proof.
  induction p as [|a p IH].
  - rewrite append_nil_l. destruct e; cbn [endswith]; rewrite String.eqb_refl; reflexivity.
  - rewrite append_cons. cbn [endswith]. rewrite IH.
    destruct (String.eqb _ _); reflexivity.
Qed.

Lemma endswith_spec s e : endswith s e = true -> exists p, s = p +:+ e.
Proof.
  induction s as [|a s IH]; cbn [endswith].
  - destruct (String.eqb_spec "" e) as [<-|]; [|discriminate].
    intros _. exists "". reflexivity.
  - destruct (String.eqb_spec (String a s) e) as [<-|].
    + intros _. exists "". reflexivity.
    + intros H. destruct (IH H) as [p ->]. exists (String a p). reflexivity.
Qed.

Lemma last_char_app s t : t <> "" -> last_char (s +:+ t) = last_char t.
Proof.
  intros Ht. induction s as [|a s IH]; [reflexivity|].
  rewrite append_cons. cbn [last_char]. rewrite IH.
  destruct t as [|b t]; [congruence|]. cbn [last_char].
  destruct (last_char t); reflexivity.
Qed.

Lemma endswith_last_char s e :
  e <> "" -> last_char s <> last_char e -> endswith s e = false.
Proof.
  intros He Hl. destruct (endswith s e) eqn:E; [|reflexivity].
  apply endswith_spec in E as [p ->]. rewrite last_char_app in Hl by exact He.
  congruence.
Qed.

(** *** The substitution [re.sub(r'(?<=EXT)(\?[^/]+)$', '', s)] *)

Lemma sub_query_decompose ext s : forall seen,
  sub_query_after ext seen s = s
  \/ exists q, s = sub_query_after ext seen s +:+ "?" +:+ q
               /\ q <> "" /\ has_char "/" q = false
               /\ endswith (seen +:+ sub_query_after ext seen s) ext = true.
Proof.
  induction s as [|c s IH]; intros seen; [left; reflexivity|].
  cbn [sub_query_after].
  destruct (Ascii.eqb_spec c "?") as [->|Hc]; cbn [andb].
  - destruct (endswith seen ext) eqn:E; cbn [andb].
    + destruct (String.eqb_spec s "") as [->|Hs]; cbn [negb andb].
      * destruct (IH (seen +:+ "?")) as [->|(q & ? & ? & _)]; [left; reflexivity|].
        destruct (sub_query_after ext (seen +:+ "?") ""); discriminate.
      * destruct (has_char "/" s) eqn:Hsl; cbn [negb].
        -- destruct (IH (seen +:+ "?")) as [->|(q & Hq & ? & ? & He)];
             [left; reflexivity|].
           right. exists q. rewrite append_cons, <- Hq.
           rewrite append_assoc in He. auto.
        -- right. exists s. rewrite append_nil_r. auto.
    + destruct (IH (seen +:+ "?")) as [->|(q & Hq & ? & ? & He)]; [left; reflexivity|].
      right. exists q. rewrite append_cons, <- Hq. rewrite append_assoc in He. auto.
  - destruct (IH (seen +:+ String c "")) as [->|(q & Hq & ? & ? & He)];
      [left; reflexivity|].
    right. exists q. rewrite append_cons, <- Hq. rewrite append_assoc in He. auto.
Qed.

Lemma sub_query_prefix ext seen s : exists m, s = sub_query_after ext seen s +:+ m.
Proof.
  destruct (sub_query_decompose ext s seen) as [->|(q & Hq & _)].
  - exists "". rewrite append_nil_r. reflexivity.
  - exists ("?" +:+ q). exact Hq.
Qed.

Lemma sub_query_length ext seen s :
  String.length (sub_query_after ext seen s) <= String.length s.
Proof.
  destruct (sub_query_prefix ext seen s) as [m Hm].
  rewrite Hm at 2. rewrite length_append. lia.
Qed.

Lemma sub_query_no_slash ext seen s :
  has_char "/" s = false -> has_char "/" (sub_query_after ext seen s) = false.
Proof.
  destruct (sub_query_prefix ext seen s) as [m Hm]. intros H.
  rewrite Hm, has_char_app in H. apply orb_false_iff in H as [H _]. exact H.
Qed.

(** A question mark that qualifies makes the result shorter. *)
Lemma sub_query_shrinks ext a q : forall seen,
  q <> "" -> has_char "/" q = false -> endswith (seen +:+ a) ext = true ->
  String.length (sub_query_after ext seen (a +:+ "?" +:+ q))
  < String.length (a +:+ "?" +:+ q).
Proof.
  induction a as [|c a IH]; intros seen Hq Hsl He.
  - rewrite append_nil_r in He. rewrite append_nil_l.
    change ("?" +:+ q) with (String "?" q). cbn [sub_query_after].
    rewrite Ascii.eqb_refl, He, Hsl.
    destruct (String.eqb_spec q ""); [contradiction|]. cbn. lia.
  - rewrite append_cons. cbn [sub_query_after].
    destruct (_ && _ && _ && _); [cbn; lia|].
    cbn [String.length]. apply -> Nat.succ_lt_mono.
    apply IH; auto. rewrite append_assoc. exact He.
Qed.

(** The text up to the first question mark. *)
Lemma sub_query_first ext a q : forall seen,
  has_char "?" a = false ->
  sub_query_after ext seen (a +:+ "?" +:+ q) =
    if endswith (seen +:+ a) ext && negb (String.eqb q "") && negb (has_char "/" q)
    then a
    else a +:+ "?" +:+ sub_query_after ext (seen +:+ a +:+ "?") q.
Proof.
  induction a as [|c a IH]; intros seen Ha.
  - rewrite append_nil_r, !append_nil_l.
    change ("?" +:+ q) with (String "?" q). cbn [sub_query_after].
    rewrite Ascii.eqb_refl. cbn [andb].
    destruct (endswith seen ext && negb (String.eqb q "") && negb (has_char "/" q));
      reflexivity.
  - cbn [has_char] in Ha. rewrite append_cons. cbn [sub_query_after].
    destruct (Ascii.eqb c "?"); [discriminate|]. cbn [andb].
    rewrite (IH _ Ha). rewrite !append_assoc, !append_cons, append_nil_l.
    destruct (_ && _ && _); reflexivity.
Qed.

Lemma sub_query_no_qmark ext s : forall seen,
  has_char "?" s = false -> sub_query_after ext seen s = s.
Proof.
  induction s as [|c s IH]; intros seen H; [reflexivity|].
  cbn [has_char] in H. cbn [sub_query_after].
  destruct (Ascii.eqb c "?"); [discriminate|]. cbn [andb].
  rewrite (IH _ H). reflexivity.
Qed.

Lemma filename_unfold scheme rest :
  has_char ":" scheme = false ->
  get_usable_filename_from_url (scheme +:+ ":" +:+ rest) =
    sub_query_after ".js" "" (sub_query_after ".css" ""
      (replace_char "/" "_" (strip "/" rest))).
Proof.
  intros H. unfold get_usable_filename_from_url.
  change (":" +:+ rest) with (String ":" rest).
  rewrite (after_first_app _ _ _ H). reflexivity.
Qed.

Lemma has_char_split_r c a q : has_char c (a +:+ "?" +:+ q) = false -> has_char c q = false.
Proof.
  rewrite !has_char_app. intros H.
  apply orb_false_iff in H as [_ H]. apply orb_false_iff in H as [_ H]. exact H.
Qed.

(** *** [strip('/')] and [replace('/', '_')] *)

Lemma rstrip_app_char c s : rstrip c (s +:+ String c "") = rstrip c s.
Proof.
  induction s as [|a s IH].
  - rewrite append_nil_l. cbn [rstrip]. rewrite Ascii.eqb_refl. reflexivity.
  - rewrite append_cons. cbn [rstrip]. rewrite IH. reflexivity.
Qed.

Lemma lstrip_slashes n s : lstrip "/" (slashes n +:+ s) = lstrip "/" s.
Proof.
  induction n as [|n IH]; cbn [slashes].
  - rewrite append_nil_l. reflexivity.
  - rewrite append_cons. cbn [lstrip]. rewrite Ascii.eqb_refl. exact IH.
Qed.

Lemma lstrip_id s : (forall t, s <> String "/" t) -> lstrip "/" s = s.
Proof.
  destruct s as [|a s]; [reflexivity|]. intros H. cbn [lstrip].
  destruct (Ascii.eqb_spec a "/") as [->|]; [|reflexivity].
  exfalso. exact (H s eq_refl).
Qed.

Lemma slashes_snoc m : slashes (S m) = slashes m +:+ "/".
Proof.
  induction m as [|m IH]; [reflexivity|].
  cbn [slashes] in IH |- *. rewrite append_cons, <- IH. reflexivity.
Qed.

Lemma rstrip_slashes s m : rstrip "/" (s +:+ slashes m) = rstrip "/" s.
Proof.
  induction m as [|m IH]; [rewrite append_nil_r; reflexivity|].
  rewrite slashes_snoc, <- append_assoc, (rstrip_app_char "/"). exact IH.
Qed.

Lemma rstrip_id s : last_char s <> Some "/"%char -> rstrip "/" s = s.
Proof.
  induction s as [|a s IH]; [reflexivity|]. cbn [last_char rstrip].
  destruct (last_char s) as [d|] eqn:E; intros H.
  - rewrite (IH H). destruct s; [discriminate E|reflexivity].
  - assert (s = "") as ->.
    { destruct s as [|b s]; [reflexivity|]. cbn [last_char] in E.
      destruct (last_char s); discriminate. }
    cbn [rstrip]. destruct (Ascii.eqb_spec a "/") as [->|]; [contradiction|reflexivity].
Qed.

(** The slashes around a text that neither starts nor ends with one are
    what [strip('/')] removes. *)
Lemma strip_slashes n m core :
  (forall t, core <> String "/" t) -> last_char core <> Some "/"%char ->
  strip "/" (slashes n +:+ core +:+ slashes m) = core.
Proof.
  intros Hl Hr. unfold strip. rewrite lstrip_slashes.
  destruct core as [|c core].
  - rewrite append_nil_l, <- (append_nil_r (slashes m)), lstrip_slashes. reflexivity.
  - rewrite lstrip_id.
    + rewrite rstrip_slashes. apply rstrip_id, Hr.
    + rewrite append_cons. intros t [= -> _]. exact (Hl core eq_refl).
Qed.

Lemma replace_char_list a b s :
  String.list_ascii_of_string (replace_char a b s)
  = map (fun c => if Ascii.eqb c a then b else c) (String.list_ascii_of_string s).
Proof.
  induction s as [|c s IH]; [reflexivity|].
  cbn [replace_char String.list_ascii_of_string map]. rewrite IH. reflexivity.
Qed.

Lemma endswith_iff s e : endswith s e = true <-> has_suffix s e.
Proof. split; [apply endswith_spec|intros [p ->]; apply endswith_app]. Qed.

Lemma endswith_false s e : ~ has_suffix s e -> endswith s e = false.
Proof.
  intros H. destruct (endswith s e) eqn:E; [|reflexivity].
  exfalso. apply H, endswith_iff, E.
Qed.

(** *** The question mark at which the text is cut is the first that qualifies *)

Lemma sub_query_cut ext s : forall seen,
  has_char "/" s = false ->
  (exists q, s = sub_query_after ext seen s +:+ "?" +:+ q /\ q <> ""
     /\ endswith (seen +:+ sub_query_after ext seen s) ext = true
     /\ forall a q', s = a +:+ "?" +:+ q' -> q' <> "" ->
           endswith (seen +:+ a) ext = true ->
           String.length (sub_query_after ext seen s) <= String.length a)
  \/ (sub_query_after ext seen s = s
      /\ forall a q', s = a +:+ "?" +:+ q' -> q' <> "" ->
            endswith (seen +:+ a) ext = false).
Proof.
  induction s as [|c s IH]; intros seen Hs.
  - right. split; [reflexivity|]. intros a q' E.
    destruct a; [rewrite append_nil_l in E|rewrite append_cons in E]; discriminate E.
  - cbn [has_char] in Hs. destruct (Ascii.eqb c "/"); [discriminate|].
    cbn [sub_query_after].
    destruct (Ascii.eqb c "?" && endswith seen ext && negb (String.eqb s "")
              && negb (has_char "/" s)) eqn:Hcond.
    + left. apply andb_true_iff in Hcond as [Hcond _].
      apply andb_true_iff in Hcond as [Hcond Hne].
      apply andb_true_iff in Hcond as [Hc He].
      apply Ascii.eqb_eq in Hc as ->. exists s.
      rewrite append_nil_l, append_nil_r. split; [reflexivity|]. split.
      * destruct (String.eqb_spec s ""); [discriminate Hne|assumption].
      * split; [exact He|]. intros a q' _ _ _. cbn [String.length]. lia.
    + assert (Hfirst : forall q', String c s = "" +:+ "?" +:+ q' -> q' <> "" ->
                         endswith (seen +:+ "") ext = false).
      { intros q' E Hq. rewrite append_nil_l in E.
        change ("?" +:+ q') with (String "?" q') in E. injection E as -> ->.
        rewrite append_nil_r. rewrite Ascii.eqb_refl, Hs in Hcond.
        destruct (endswith seen ext); [|reflexivity].
        destruct (String.eqb_spec q' ""); [contradiction|discriminate Hcond]. }
      destruct (IH (seen +:+ String c "") Hs) as [(q & Hq & Hq0 & He & Hmin)|[Ht Hnone]].
      * left. exists q. rewrite append_cons, <- Hq. split; [reflexivity|].
        split; [exact Hq0|]. split; [rewrite append_assoc in He; exact He|].
        intros a q' E Hq' He'. destruct a as [|c' a].
        -- rewrite (Hfirst q' E Hq') in He'. discriminate He'.
        -- rewrite append_cons in E. injection E as <- E. cbn [String.length].
           apply le_n_S, (Hmin a q' E Hq'). rewrite append_assoc. exact He'.
      * right. rewrite Ht. split; [reflexivity|]. intros a q' E Hq'.
        destruct a as [|c' a]; [exact (Hfirst q' E Hq')|].
        rewrite append_cons in E. injection E as <- E.
        specialize (Hnone a q' E Hq'). rewrite append_assoc in Hnone. exact Hnone.
Qed.

Lemma sub_query_cut_query ext s :
  has_char "/" s = false -> cut_query ext s (sub_query_after ext "" s).
Proof.
  intros Hs. destruct (sub_query_cut ext s "" Hs) as [(q & Hq & Hq0 & He & Hmin)|[Ht Hnone]].
  - left. exists q. rewrite append_nil_l in He. split; [exact Hq|]. split; [exact Hq0|].
    split; [apply endswith_iff, He|]. intros a q' E Hq' Ha.
    apply (Hmin a q' E Hq'). rewrite append_nil_l. apply endswith_iff, Ha.
  - right. split; [exact Ht|]. intros a q' E Hq' Ha.
    specialize (Hnone a q' E Hq'). rewrite append_nil_l in Hnone.
    apply endswith_iff in Ha. congruence.
Qed.

(** C8, as amended.  For a URL made of a scheme without a colon, a colon,
    slashes, a text [core] that neither starts nor ends with a slash, and
    slashes again, the file name is computed from [core] alone: the scheme
    with its colon and the slashes on both sides are dropped.  Every slash
    of [core] becomes an underscore and no other character changes (the
    body).  The body is cut at the first question mark that comes right
    after [.css] and has a character after it, if there is one, and what
    is left is cut in the same way for [.js]; nothing else is removed.
    Hence no slash is left in the name; the name differs from the body
    exactly when a question mark followed by a character comes right after
    [.css] or [.js] somewhere in it; a query that starts right after
    [.css] or [.js] is removed whole; and a query after any other ending
    is kept as it is when it holds no second question mark. *)
Theorem filename_of_absolute_url (scheme core : string) (n m : nat) :
  has_char ":" scheme = false ->
  (forall t, core <> String "/" t) -> last_char core <> Some "/"%char ->
  let body := replace_char "/" "_" core in
  let name := get_usable_filename_from_url
                (scheme +:+ ":" +:+ slashes n +:+ core +:+ slashes m) in
  String.list_ascii_of_string body
  = map (fun c => if Ascii.eqb c "/" then "_"%char else c) (String.list_ascii_of_string core)
  /\ (exists mid, cut_query ".css" body mid /\ cut_query ".js" mid name)
  /\ has_char "/" name = false
  /\ (name <> body <->
        exists a q, body = a +:+ "?" +:+ q /\ q <> ""
                    /\ (has_suffix a ".css" \/ has_suffix a ".js"))
  /\ (forall p ext q,
        body = p +:+ ext +:+ "?" +:+ q -> ext = ".css" \/ ext = ".js" ->
        has_char "?" p = false -> q <> "" -> name = p +:+ ext)
  /\ (forall p q,
        body = p +:+ "?" +:+ q -> has_char "?" p = false -> has_char "?" q = false ->
        ~ has_suffix p ".css" -> ~ has_suffix p ".js" -> name = body).
Proof.
  intros Hs Hlead Htrail body name.
  assert (Hname : name = sub_query_after ".js" "" (sub_query_after ".css" "" body)).
  { unfold name. rewrite (filename_unfold _ _ Hs), (strip_slashes _ _ _ Hlead Htrail).
    reflexivity. }
  assert (Hbody : has_char "/" body = false) by apply replace_char_no_slash.
  split; [apply replace_char_list|].
  clearbody name body. subst name.
  set (r1 := sub_query_after ".css" "" body).
  assert (Hr1 : has_char "/" r1 = false) by (apply sub_query_no_slash, Hbody).
  split.
  { exists r1. split; apply sub_query_cut_query; assumption. }
  split; [apply sub_query_no_slash, Hr1|].
  split; [|split].
  - split.
    + intros Hne.
      destruct (sub_query_decompose ".css" body "") as [E|(q & Hq & Hq0 & _ & He)].
      * fold r1 in E.
        destruct (sub_query_decompose ".js" r1 "") as [E'|(q & Hq & Hq0 & _ & He)].
        -- congruence.
        -- rewrite append_nil_l in He. rewrite <- E. apply endswith_iff in He.
           exists (sub_query_after ".js" "" r1), q. auto.
      * fold r1 in Hq, He. rewrite append_nil_l in He. apply endswith_iff in He.
        exists r1, q. auto.
    + intros (a & q & Hb & Hq & He).
      assert (Hsl : has_char "/" q = false).
      { rewrite Hb in Hbody. exact (has_char_split_r _ _ _ Hbody). }
      assert (String.length (sub_query_after ".js" "" r1) < String.length body);
        [|intros E; rewrite E in *; lia].
      pose proof (sub_query_length ".js" "" r1) as L2.
      pose proof (sub_query_length ".css" "" body) as L1. fold r1 in L1.
      destruct He as [He|He]; apply endswith_iff in He.
      * pose proof (sub_query_shrinks ".css" a q "" Hq Hsl He) as L.
        rewrite <- Hb in L. fold r1 in L. lia.
      * destruct (sub_query_decompose ".css" body "") as [E|(q1 & Hq1 & _)].
        -- fold r1 in E. rewrite E.
           pose proof (sub_query_shrinks ".js" a q "" Hq Hsl He) as L.
           rewrite <- Hb in L. exact L.
        -- fold r1 in Hq1. apply (f_equal String.length) in Hq1.
           rewrite !length_append in Hq1. cbn [String.length] in Hq1. lia.
  - intros p ext q Hb Hext Hp Hq.
    assert (Hsl : has_char "/" q = false).
    { rewrite <- append_assoc in Hb. rewrite Hb in Hbody.
      exact (has_char_split_r _ _ _ Hbody). }
    assert (Hpe : has_char "?" (p +:+ ext) = false).
    { rewrite has_char_app, Hp. destruct Hext as [-> | ->]; reflexivity. }
    rewrite <- append_assoc in Hb. unfold r1. rewrite Hb.
    rewrite (sub_query_first ".css" _ q "" Hpe). rewrite Hsl.
    destruct (String.eqb_spec q "") as [|_]; [contradiction|].
    rewrite !append_nil_l. cbn [negb]. rewrite !andb_true_r.
    destruct Hext as [-> | ->].
    + rewrite endswith_app. apply sub_query_no_qmark, Hpe.
    + destruct (endswith (p +:+ ".js") ".css"); [apply sub_query_no_qmark, Hpe|].
      set (q' := sub_query_after ".css" ((p +:+ ".js") +:+ "?") q).
      assert (Hq' : q' <> "").
      { unfold q'. destruct q as [|c q]; [congruence|]. cbn [sub_query_after].
        rewrite endswith_last_char; [rewrite andb_false_r; discriminate|discriminate|].
        rewrite last_char_app by discriminate. discriminate. }
      assert (Hsl' : has_char "/" q' = false) by (apply sub_query_no_slash, Hsl).
      rewrite (sub_query_first ".js" _ q' "" Hpe).
      rewrite append_nil_l, endswith_app, Hsl'.
      destruct (String.eqb_spec q' ""); [contradiction|reflexivity].
  - intros p q Hb Hp Hq Hc Hj. apply endswith_false in Hc, Hj. unfold r1. rewrite Hb.
    rewrite (sub_query_first ".css" _ q "" Hp), append_nil_l, Hc. cbn [andb].
    rewrite (sub_query_no_qmark _ _ _ Hq).
    rewrite (sub_query_first ".js" _ q "" Hp), append_nil_l, Hj. cbn [andb].
    rewrite (sub_query_no_qmark _ _ _ Hq). reflexivity.
Qed.

(** The two examples of the specification, obtained from the theorem, and
    a URL with slashes at its end. *)
Lemma filename_of_absolute_url_witness :
  get_usable_filename_from_url "https://x.com/css/app.css?v=2" = "x.com_css_app.css"
  /\ get_usable_filename_from_url "https://x.com/img/a.jpg?v=2" = "x.com_img_a.jpg?v=2"
  /\ get_usable_filename_from_url "https://x.com/js/app.js?v=2//" = "x.com_js_app.js".
Proof.
  split; [|split].
  - destruct (filename_of_absolute_url "https" "x.com/css/app.css?v=2" 2 0 eq_refl)
      as (_ & _ & _ & _ & H & _); [discriminate..|].
    apply (H "x.com_css_app" ".css" "v=2"); [reflexivity|auto|reflexivity|discriminate].
  - destruct (filename_of_absolute_url "https" "x.com/img/a.jpg?v=2" 2 0 eq_refl)
      as (_ & _ & _ & _ & _ & H); [discriminate..|].
    apply (H "x.com_img_a.jpg" "v=2"); try reflexivity.
    + intros [p E]. apply (f_equal last_char) in E.
      rewrite last_char_app in E by discriminate. discriminate E.
    + intros [p E]. apply (f_equal last_char) in E.
      rewrite last_char_app in E by discriminate. discriminate E.
  - destruct (filename_of_absolute_url "https" "x.com/js/app.js?v=2" 2 2 eq_refl)
      as (_ & _ & _ & _ & H & _); [discriminate..|].
    apply (H "x.com_js_app" ".js" "v=2"); [reflexivity|auto|reflexivity|discriminate].
Defined.

(** C8, as stated, fails: the extension of the URL is [.jpg], and its
    query is not kept as it is, since a question mark inside the query
    comes right after [.css]. *)
Lemma filename_query_counterexample :
  get_usable_filename_from_url "https://x.com/img/a.jpg?u=b.css?v=1"
  = "x.com_img_a.jpg?u=b.css"
  /\ get_usable_filename_from_url "https://x.com/img/a.jpg?u=b.css?v=1"
     <> "x.com_img_a.jpg?u=b.css?v=1".
Proof. split; [reflexivity|discriminate]. Qed.

(** A border case of the rule: a question mark with nothing after it is
    kept, since the pattern asks for one character at least. *)
Remark filename_lone_question_mark :
  get_usable_filename_from_url "https://x.com/css/app.css?" = "x.com_css_app.css?".
Proof. reflexivity. Qed.

(** ** [get_retry] *)

Section Retry.
Context {rt : Runtime}.

Lemma session_get_attempt u w :
  session_get u w = (attempt w u 0, log_request u w).
Proof.
  unfold attempt, after_requests, session_get.
  change (Nat.iter 0 (log_request u) w) with w.
  destruct (server (history w) u) as [r [e|]|e]; reflexivity.
Qed.

Lemma after_requests_shift w u k :
  after_requests (log_request u w) u k = after_requests w u (S k).
Proof. unfold after_requests. rewrite Nat.iter_succ_r. reflexivity. Qed.

Lemma attempt_shift w u k : attempt (log_request u w) u k = attempt w u (S k).
Proof. unfold attempt. rewrite after_requests_shift. reflexivity. Qed.

(** One turn of the loop that does not end it. *)
Lemma get_retry_loop_step todo retry_no max_retries r0 u w :
  is_not_200 (attempt w u 0) ->
  (retry_no + Z.of_nat (S (S todo)) = max_retries)%Z ->
  exists r1,
    get_retry_loop (S (S todo)) retry_no max_retries r0 u w =
    get_retry_loop (S todo) (retry_no + 1)%Z max_retries (Some r1) u (log_request u w).
Proof.
  intros Hn Hmax. cbn [get_retry_loop]. rewrite session_get_attempt.
  destruct (attempt w u 0) as [resp|err]; cbn [is_not_200 rv_status] in *.
  - destruct (Z.eqb_spec (status_code resp) 200); [contradiction|].
    exists (Got resp). reflexivity.
  - destruct (Z.eqb_spec retry_no (max_retries - 1)); [lia|].
    exists ResponseClass. reflexivity.
Qed.

Lemma get_retry_loop_200 k : forall todo retry_no max_retries r0 u w r,
  (retry_no + Z.of_nat todo = max_retries)%Z -> k < todo ->
  (forall j, j < k -> is_not_200 (attempt w u j)) ->
  attempt w u k = Ok r -> status_code r = 200%Z ->
  get_retry_loop todo retry_no max_retries r0 u w = (Ok (Got r), after_requests w u (S k)).
Proof.
  induction k as [|k IH]; intros todo retry_no max_retries r0 u w r Hmax Hk Hbefore Hat H200.
  - destruct todo as [|todo]; [lia|]. cbn [get_retry_loop].
    rewrite session_get_attempt, Hat. cbn [rv_status]. rewrite H200. reflexivity.
  - destruct todo as [|[|todo]]; [lia|lia|].
    destruct (get_retry_loop_step todo retry_no max_retries r0 u w) as [r1 ->];
      [apply Hbefore; lia|exact Hmax|].
    rewrite <- after_requests_shift. apply IH; [lia|lia| |rewrite attempt_shift; exact Hat|exact H200].
    intros j Hj. rewrite attempt_shift. apply Hbefore. lia.
Qed.

Lemma get_retry_loop_last_response n : forall retry_no max_retries r0 u w r,
  (retry_no + Z.of_nat (S n) = max_retries)%Z ->
  (forall j, j < n -> is_not_200 (attempt w u j)) ->
  attempt w u n = Ok r ->
  get_retry_loop (S n) retry_no max_retries r0 u w = (Ok (Got r), after_requests w u (S n)).
Proof.
  induction n as [|n IH]; intros retry_no max_retries r0 u w r Hmax Hbefore Hat.
  - cbn [get_retry_loop]. rewrite session_get_attempt, Hat. cbn [rv_status].
    destruct (status_code r =? 200)%Z; reflexivity.
  - destruct (get_retry_loop_step n retry_no max_retries r0 u w) as [r1 ->];
      [apply Hbefore; lia|exact Hmax|].
    rewrite <- after_requests_shift. apply IH; [lia| |rewrite attempt_shift; exact Hat].
    intros j Hj. rewrite attempt_shift. apply Hbefore. lia.
Qed.

Lemma get_retry_loop_last_error n : forall retry_no max_retries r0 u w e,
  (retry_no + Z.of_nat (S n) = max_retries)%Z ->
  (forall j, j < n -> is_not_200 (attempt w u j)) ->
  attempt w u n = Raise e ->
  get_retry_loop (S n) retry_no max_retries r0 u w = (Raise e, after_requests w u (S n)).
Proof.
  induction n as [|n IH]; intros retry_no max_retries r0 u w e Hmax Hbefore Hat.
  - cbn [get_retry_loop]. rewrite session_get_attempt, Hat.
    destruct (Z.eqb_spec retry_no (max_retries - 1)); [reflexivity|lia].
  - destruct (get_retry_loop_step n retry_no max_retries r0 u w) as [r1 ->];
      [apply Hbefore; lia|exact Hmax|].
    rewrite <- after_requests_shift. apply IH; [lia| |rewrite attempt_shift; exact Hat].
    intros j Hj. rewrite attempt_shift. apply Hbefore. lia.
Qed.

End Retry.

(** With no attempt to make, [r] is read before it is bound. *)
Lemma get_retry_no_attempt `{rt : Runtime} (u : string) (max_retries : Z) (w : World) :
  (max_retries <= 0)%Z ->
  get_retry u max_retries w = (Raise (UnboundLocalError "r"), w).
Proof.
  intros H. unfold get_retry.
  replace (Z.to_nat max_retries) with 0 by lia. reflexivity.
Qed.

(** C1, as amended.  With [max_retries >= 1], the loop of [get_retry] ends
    at once only on a response with status 200, which is returned; a
    response with another status is followed by a further GET just as an
    exception is, as long as attempts remain; after [max_retries] GETs the
    response of the last one is returned whatever its status, or its
    exception is raised. *)
Theorem get_retry_attempts `{rt : Runtime} (u : string) (max_retries : Z) (w : World) :
  (1 <= max_retries)%Z ->
  let last := Z.to_nat (max_retries - 1) in
  (forall k r,
      k <= last ->
      (forall j, j < k -> is_not_200 (attempt w u j)) ->
      attempt w u k = Ok r -> status_code r = 200%Z ->
      get_retry u max_retries w = (Ok (Got r), after_requests w u (S k)))
  /\ (forall r,
        (forall j, j < last -> is_not_200 (attempt w u j)) ->
        attempt w u last = Ok r ->
        get_retry u max_retries w = (Ok (Got r), after_requests w u (S last)))
  /\ (forall e,
        (forall j, j < last -> is_not_200 (attempt w u j)) ->
        attempt w u last = Raise e ->
        get_retry u max_retries w = (Raise e, after_requests w u (S last))).
Proof.
  intros Hmax last. unfold get_retry.
  assert (Hn : Z.to_nat max_retries = S last) by (unfold last; lia).
  rewrite Hn. repeat split.
  - intros k r Hk Hbefore Hat H200.
    apply get_retry_loop_200; auto; lia.
  - intros r Hbefore Hat. apply get_retry_loop_last_response; auto; lia.
  - intros e Hbefore Hat. apply get_retry_loop_last_error; auto; lia.
Qed.

(** Three attempts against a server that always answers 404: the third
    response is returned, after three requests. *)
Lemma get_retry_attempts_witness :
  @get_retry missing_rt "http://x.com/missing" 3 empty_world
  = (Ok (Got not_found),
     @after_requests empty_world "http://x.com/missing" 3).
Proof.
  destruct (@get_retry_attempts missing_rt "http://x.com/missing" 3 empty_world)
    as (_ & H & _); [lia|].
  apply H.
  - intros j _. cbv. discriminate.
  - reflexivity.
Defined.

(** C1, as stated, fails: a response whose status is not 200 does not end
    the loop. *)
Lemma get_retry_non_200_counterexample :
  ~ (forall (rt : Runtime) (u : string) (max_retries : Z) (w : World) (r : Response),
       (1 <= max_retries)%Z ->
       attempt w u 0 = Ok r -> status_code r <> 200%Z ->
       get_retry u max_retries w = (Ok (Got r), after_requests w u 1)).
Proof.
  intros H.
  specialize (H missing_rt "http://x.com/missing" 3%Z empty_world not_found).
  apply (f_equal (fun x => length (history (snd x)))) in H.
  - vm_compute in H. discriminate H.
  - lia.
  - reflexivity.
  - discriminate.
Qed.

(** ** The extractors *)

Section Extractors.
Context {rt : Runtime}.

Lemma stylesheet_hrefs_missing_href (links : list Tag) :
  (exists t, t ∈ links /\ list_attrs t !! "rel" = Some ["stylesheet"]
             /\ attrs t !! "href" = None) ->
  stylesheet_hrefs links = Raise (KeyError "href").
Proof.
  intros (t & Hin & Hrel & Hhref).
  induction links as [|l links IH]; [inversion Hin|].
  cbn [stylesheet_hrefs]. apply elem_of_cons in Hin as [<-|Hin].
  - rewrite bool_decide_eq_true_2 by exact Hrel. rewrite Hhref. reflexivity.
  - rewrite (IH Hin). case_bool_decide; [|reflexivity].
    destruct (attrs l !! "href"); reflexivity.
Qed.

(** The siblings test for the attribute they read: a tag without [src]
    and [srcset] adds nothing to the image references. *)
Lemma img_without_src_contributes_nothing (t : Tag) (soup : list Tag) (r : Response) :
  attrs t !! "src" = None -> attrs t !! "srcset" = None ->
  get_img_links (t :: soup) r = get_img_links soup r.
Proof.
  intros Hsrc Hset. unfold get_img_links, get_srcset_urls_from_tags, find_all.
  rewrite filter_cons. case_decide; [|reflexivity].
  cbn [omap list_omap]. rewrite Hsrc, Hset. reflexivity.
Qed.

(** One reference: the pair keeps the text, and its URL is the text when
    that starts with [http] and what [urljoin] returns otherwise. *)
Lemma resolve_pair_ok r src p :
  resolve_pair r src = Ok p ->
  snd p = src
  /\ (if startswith src "http" then fst p = src
      else urljoin (url r) src = Ok (fst p)).
Proof.
  unfold resolve_pair. destruct (startswith src "http"); cbn [negb].
  - intros [= <-]. auto.
  - destruct (urljoin (url r) src) as [u|e]; [|discriminate]. intros [= <-]. auto.
Qed.

Lemma resolve_pair_raise r src e :
  resolve_pair r src = Raise e ->
  startswith src "http" = false /\ urljoin (url r) src = Raise e.
Proof.
  unfold resolve_pair. destruct (startswith src "http"); cbn [negb]; [discriminate|].
  destruct (urljoin (url r) src) as [u|e']; [discriminate|]. intros [= <-]. auto.
Qed.

Lemma resolve_pair_complete r src u :
  (if startswith src "http" then u = src else urljoin (url r) src = Ok u) ->
  resolve_pair r src = Ok (u, src).
Proof.
  unfold resolve_pair. destruct (startswith src "http"); cbn [negb].
  - intros ->. reflexivity.
  - intros ->. reflexivity.
Qed.

(** The comprehension, when it returns: the pairs of the references. *)
Lemma resolve_all_elem r srcs : forall ps p,
  resolve_all r srcs = Ok ps ->
  p ∈ ps <-> exists src, src ∈ srcs /\ resolve_pair r src = Ok p.
Proof.
  induction srcs as [|s srcs IH]; intros ps p H; cbn [resolve_all] in H.
  - injection H as <-. split; [intros Hp; inversion Hp|intros (src & Hs & _); inversion Hs].
  - destruct (resolve_pair r s) as [q|e] eqn:Hq; [|discriminate].
    destruct (resolve_all r srcs) as [qs|e]; [|discriminate].
    injection H as <-. rewrite elem_of_cons, (IH qs p eq_refl). split.
    + intros [->|(src & Hs & Hp)].
      * exists s. split; [apply elem_of_cons; auto|exact Hq].
      * exists src. split; [apply elem_of_cons; auto|exact Hp].
    + intros (src & Hs & Hp). apply elem_of_cons in Hs as [->|Hs].
      * left. congruence.
      * right. eauto.
Qed.

(** The comprehension, when it raises: the references before the failing
    one have been resolved, and the exception is that of [urljoin] on it. *)
Lemma resolve_all_raise r srcs : forall e,
  resolve_all r srcs = Raise e ->
  exists before src after,
    srcs = before ++ src :: after
    /\ (exists ps, resolve_all r before = Ok ps)
    /\ startswith src "http" = false /\ urljoin (url r) src = Raise e.
Proof.
  induction srcs as [|s srcs IH]; intros e H; cbn [resolve_all] in H; [discriminate|].
  destruct (resolve_pair r s) as [q|e'] eqn:Hq.
  - destruct (resolve_all r srcs) as [qs|e'] eqn:Hqs; [discriminate|].
    injection H as <-. destruct (IH e' eq_refl) as (b & src & a & -> & (ps & Hb) & Hs & Hu).
    exists (s :: b), src, a. split; [reflexivity|]. split; [|auto].
    exists (q :: ps). cbn [resolve_all]. rewrite Hq, Hb. reflexivity.
  - injection H as <-. apply resolve_pair_raise in Hq as [Hs Hu].
    exists [], s, srcs. split; [reflexivity|]. split; [exists []; reflexivity|auto].
Qed.

Lemma resolve_all_each r srcs : forall ps src,
  resolve_all r srcs = Ok ps -> src ∈ srcs -> exists p, resolve_pair r src = Ok p.
Proof.
  induction srcs as [|s srcs IH]; intros ps src H Hs; [inversion Hs|].
  cbn [resolve_all] in H. destruct (resolve_pair r s) as [q|e] eqn:Hq; [|discriminate].
  destruct (resolve_all r srcs) as [qs|e]; [|discriminate].
  apply elem_of_cons in Hs as [->|Hs]; eauto.
Qed.

Lemma resolve_all_returns r srcs :
  (forall src, src ∈ srcs -> startswith src "http" = false ->
               exists u, urljoin (url r) src = Ok u) ->
  exists ps, resolve_all r srcs = Ok ps.
Proof.
  intros Hall. destruct (resolve_all r srcs) as [ps|e] eqn:E; [eauto|].
  apply resolve_all_raise in E as (b & src & a & -> & _ & Hs & Hu).
  destruct (Hall src) as [u Hu']; [|exact Hs|congruence].
  apply elem_of_app. right. apply elem_of_cons. auto.
Qed.

End Extractors.

(** C3: what the code does on the claim's input.  [get_stylesheet_links]
    raises [KeyError] on a tree holding a [link] tag whose [rel] is the
    single token [stylesheet] and that has no [href], and the exception
    leaves [copy_page] and [main]: the page of such a site is abandoned
    after its first write and the run ends. *)
Theorem stylesheet_link_without_href_raises :
  (forall (rt : Runtime) (before after : list Tag) (r : Response),
      get_stylesheet_links (before ++ bare_stylesheet_link :: after) r
      = Raise (KeyError "href"))
  /\ fst (@main bare_link_rt ["http://x.com/"] "site"
            {| ignore_js := false; zip := false; ignore := None |} empty_world)
     = Raise (KeyError "href").
Proof.
  split.
  - intros rt before after r. unfold get_stylesheet_links.
    rewrite stylesheet_hrefs_missing_href; [reflexivity|].
    exists bare_stylesheet_link. split; [|split; reflexivity].
    unfold find_all. apply list_elem_of_filter. split; [reflexivity|].
    apply elem_of_app. right. apply elem_of_cons. left. reflexivity.
  - vm_compute. reflexivity.
Qed.

(** ** The download loop *)

Section Loop.
Context {rt : Runtime}.
Variables destination_dir destdir_name : string.

Lemma download_media_history u dest w :
  history (snd (download_media u dest w)) = history w ++ [u].
Proof.
  unfold download_media. destruct (server (history w) u) as [r cut|e]; [|reflexivity].
  destruct (can_open dest); [|reflexivity]. destruct cut; reflexivity.
Qed.



(** The loop, when it ends without an exception. *)
Lemma download_links_ok links : forall page created w page' created' w',
  download_links destination_dir destdir_name links page created w
    = (Ok (page', created'), w') ->
  apply_subs (downloaded destination_dir links w) page = Ok page'
  /\ created' = created ++ map (packaged_name destdir_name) (downloaded destination_dir links w)
  /\ w' = world_after destination_dir links w.
Proof.
  induction links as [|[link rel_link] links IH]; intros page created w page' created' w' H.
  - cbn in H. injection H as <- <- <-. cbn. rewrite app_nil_r. auto.
  - cbn [download_links downloaded world_after] in H |- *.
    destruct (download_media link _ w) as [[[]|e] w1]; cbn [snd].
    + cbn [apply_subs].
      destruct (re_sub_escaped rel_link _ page) as [page1|e]; [|discriminate].
      destruct (IH _ _ _ _ _ _ H) as (Hs & Hc & Hw).
      split; [exact Hs|]. split; [|exact Hw].
      rewrite Hc, <- app_assoc. reflexivity.
    + apply IH, H.
Qed.

Lemma download_links_complete links : forall page created w page',
  apply_subs (downloaded destination_dir links w) page = Ok page' ->
  download_links destination_dir destdir_name links page created w
    = (Ok (page', created ++ map (packaged_name destdir_name) (downloaded destination_dir links w)),
       world_after destination_dir links w).
Proof.
  induction links as [|[link rel_link] links IH]; intros page created w page' H.
  - cbn in H |- *. injection H as <-. rewrite app_nil_r. reflexivity.
  - cbn [download_links downloaded world_after] in H |- *.
    destruct (download_media link _ w) as [[[]|e] w1]; cbn [snd].
    + cbn [apply_subs] in H.
      destruct (re_sub_escaped rel_link _ page) as [page1|e]; [|discriminate].
      rewrite (IH _ _ _ _ H). cbn [map]. rewrite <- app_assoc. reflexivity.
    + apply IH, H.
Qed.

(** The requests of the loop, however it ends. *)
Lemma download_links_requests links : forall page created w res w',
  download_links destination_dir destdir_name links page created w = (res, w') ->
  exists l, history w' = history w ++ l /\ l `prefix_of` map fst links
    /\ (forall st, res = Ok st -> l = map fst links).
Proof.
  induction links as [|[link rel_link] links IH]; intros page created w res w' H.
  - injection H as <- <-. exists []. rewrite app_nil_r. repeat split; reflexivity.
  - cbn [download_links] in H.
    pose proof (download_media_history link
                  (path_join destination_dir (get_usable_filename_from_url link)) w) as Hh.
    destruct (download_media link _ w) as [[[]|e] w1]; cbn [snd] in Hh.
    + destruct (re_sub_escaped rel_link _ page) as [page1|e].
      * destruct (IH _ _ _ _ _ H) as (l & Hl & Hp & Hall). exists (link :: l).
        rewrite Hl, Hh, <- app_assoc. split; [reflexivity|].
        split; [apply prefix_cons, Hp|]. intros st Hst. cbn [map fst]. f_equal. eauto.
      * injection H as <- <-. exists [link]. split; [exact Hh|].
        split; [apply prefix_cons, prefix_nil|]. discriminate.
    + destruct (IH _ _ _ _ _ H) as (l & Hl & Hp & Hall). exists (link :: l).
      rewrite Hl, Hh, <- app_assoc. split; [reflexivity|].
      split; [apply prefix_cons, Hp|]. intros st Hst. cbn [map fst]. f_equal. eauto.
Qed.

(** The loop over a list in two parts. *)
Lemma download_links_app l1 l2 : forall page created w page1 created1 w1,
  download_links destination_dir destdir_name l1 page created w
    = (Ok (page1, created1), w1) ->
  download_links destination_dir destdir_name (l1 ++ l2) page created w
    = download_links destination_dir destdir_name l2 page1 created1 w1.
Proof.
  induction l1 as [|[link rel_link] l1 IH]; intros page created w page1 created1 w1 H.
  - cbn in H. injection H as <- <- <-. reflexivity.
  - cbn [download_links app] in H |- *.
    destruct (download_media link _ w) as [[[]|e] w'].
    + destruct (re_sub_escaped rel_link _ page) as [page'|e]; [|discriminate].
      apply IH, H.
    + apply IH, H.
Qed.

End Loop.

(** ** Characters that the file name derivation cannot introduce *)

Lemma has_char_after_first c d s t :
  has_char c s = false -> after_first d s = Some t -> has_char c t = false.
Proof.
  induction s as [|a s IH]; cbn [after_first has_char]; [discriminate|].
  destruct (Ascii.eqb a c); [discriminate|].
  destruct (Ascii.eqb a d); [congruence|exact IH].
Qed.

Lemma has_char_lstrip c d s : has_char c s = false -> has_char c (lstrip d s) = false.
Proof.
  induction s as [|a s IH]; cbn [lstrip has_char]; [reflexivity|].
  destruct (Ascii.eqb a c) eqn:E; [discriminate|].
  destruct (Ascii.eqb a d); [exact IH|]. cbn [has_char]. rewrite E. tauto.
Qed.

Lemma has_char_rstrip c d s : has_char c s = false -> has_char c (rstrip d s) = false.
Proof.
  induction s as [|a s IH]; cbn [rstrip has_char]; [reflexivity|].
  destruct (Ascii.eqb a c) eqn:E; [discriminate|]. intros H. specialize (IH H).
  destruct (rstrip d s) as [|b r].
  - destruct (Ascii.eqb a d); [reflexivity|]. cbn [has_char]. rewrite E. reflexivity.
  - cbn [has_char] in IH |- *. rewrite E. exact IH.
Qed.

Lemma has_char_replace_char c a b s :
  Ascii.eqb b c = false -> has_char c s = false ->
  has_char c (replace_char a b s) = false.
Proof.
  intros Hb. induction s as [|x s IH]; cbn [replace_char has_char]; [reflexivity|].
  destruct (Ascii.eqb x c) eqn:E; [discriminate|].
  intros H. destruct (Ascii.eqb x a); [rewrite Hb|rewrite E]; exact (IH H).
Qed.

Lemma has_char_sub_query c ext seen s :
  has_char c s = false -> has_char c (sub_query_after ext seen s) = false.
Proof.
  destruct (sub_query_prefix ext seen s) as [m Hm]. intros H.
  rewrite Hm, has_char_app in H. apply orb_false_iff in H as [H _]. exact H.
Qed.

Lemma filename_no_slash u : has_char "/" (get_usable_filename_from_url u) = false.
Proof.
  unfold get_usable_filename_from_url.
  apply sub_query_no_slash, sub_query_no_slash, replace_char_no_slash.
Qed.

Lemma filename_no_backslash u :
  has_char "\" u = false -> has_char "\" (get_usable_filename_from_url u) = false.
Proof.
  intros H. unfold get_usable_filename_from_url.
  apply has_char_sub_query, has_char_sub_query, has_char_replace_char; [reflexivity|].
  apply has_char_rstrip, has_char_lstrip.
  destruct (after_first ":" u) as [t|] eqn:E; [|exact H].
  exact (has_char_after_first _ _ _ _ H E).
Qed.

Lemma path_join_dot f : has_char "/" f = false -> path_join "." f = "./" +:+ f.
Proof.
  intros H. unfold path_join.
  destruct f as [|c f]; [reflexivity|]. cbn [has_char] in H. cbn [startswith].
  rewrite Ascii.eqb_sym. destruct (Ascii.eqb c "/"); [discriminate|]. reflexivity.
Qed.

Lemma concat_chunks_cons x l : String.concat "" (x :: l) = x +:+ String.concat "" l.
Proof. destruct l; [cbn; rewrite append_nil_r|]; reflexivity. Qed.

Lemma concat_nonempty_chunks l :
  String.concat "" (filter (fun chunk => chunk <> "") l) = String.concat "" l.
Proof.
  induction l as [|x l IH]; [reflexivity|].
  rewrite filter_cons, concat_chunks_cons.
  destruct (decide (x <> "")) as [Hx|Hx].
  - rewrite concat_chunks_cons, IH. reflexivity.
  - apply dec_stable in Hx. subst x. rewrite IH. reflexivity.
Qed.

(** ** What a download does *)

Section Download.
Context {rt : Runtime}.

Lemma download_media_answer u dest w r :
  server (history w) u = Answer r None -> can_open dest = true ->
  download_media u dest w
  = (Ok tt, set_file (realpath dest) (content r) (log_request u w)).
Proof.
  intros Hs Ho. unfold download_media. rewrite Hs, Ho, concat_nonempty_chunks.
  reflexivity.
Qed.

Lemma re_sub_escaped_local_name rel_link u page :
  has_char "\" u = false ->
  re_sub_escaped rel_link (path_join "." (get_usable_filename_from_url u)) page
  = Ok (replace_all rel_link ("./" +:+ get_usable_filename_from_url u) page).
Proof.
  intros H. unfold re_sub_escaped.
  rewrite path_join_dot by apply filename_no_slash.
  rewrite compile_template_literal; [reflexivity|].
  rewrite has_char_app. rewrite (filename_no_backslash _ H). reflexivity.
Qed.

End Download.

(** ** Literal replacement and the text it does not touch *)

Lemma append_prefix_split key : forall r a rest,
  key +:+ r = a +:+ rest -> String.length key <= String.length a ->
  exists a2, a = key +:+ a2 /\ r = a2 +:+ rest.
Proof.
  induction key as [|c key IH]; intros r a rest H Hl.
  - exists a. auto.
  - destruct a as [|d a]; [cbn in Hl; lia|].
    rewrite !append_cons in H. injection H as <- H.
    destruct (IH _ _ _ H) as (a2 & -> & ->); [cbn in Hl; lia|].
    exists a2. auto.
Qed.

Lemma replace_go_skip key ins x : forall y,
  replace_go key ins (String.length x) (x +:+ y) = replace_go key ins 0 y.
Proof.
  induction x as [|c x IH]; intros y; [reflexivity|].
  rewrite append_cons. cbn [String.length replace_go]. apply IH.
Qed.

Lemma replace_go_match key ins s r :
  key <> "" -> s = key +:+ r ->
  replace_go key ins 0 s = ins +:+ replace_go key ins 0 r.
Proof.
  intros Hk ->. destruct key as [|c key]; [congruence|].
  rewrite append_cons. cbn [replace_go].
  change (String c (key +:+ r)) with (String c key +:+ r).
  rewrite startswith_app.
  replace (String.length (String c key) - 1) with (String.length key)
    by (cbn [String.length]; lia).
  rewrite replace_go_skip. reflexivity.
Qed.

Lemma replace_go_untouched key ins t : forall b,
  (forall x y, t +:+ b = x +:+ key +:+ y -> String.length t <= String.length x) ->
  replace_go key ins 0 (t +:+ b) = t +:+ replace_go key ins 0 b.
Proof.
  induction t as [|c t IH]; intros b H; [reflexivity|].
  rewrite append_cons. cbn [replace_go].
  destruct (startswith (String c (t +:+ b)) key) eqn:E.
  - apply startswith_spec in E as [r Hr].
    specialize (H "" r). rewrite append_nil_l in H. specialize (H Hr). cbn in H. lia.
  - rewrite IH; [reflexivity|]. intros x y Hxy.
    specialize (H (String c x) y). rewrite !append_cons, Hxy in H.
    specialize (H eq_refl). cbn in H. lia.
Qed.

Lemma replace_go_before key ins rest (Hk : key <> "") : forall n a,
  String.length a <= n ->
  (forall x y, a +:+ rest = x +:+ key +:+ y -> String.length x < String.length a ->
               String.length x + String.length key <= String.length a) ->
  replace_go key ins 0 (a +:+ rest)
  = replace_go key ins 0 a +:+ replace_go key ins 0 rest.
Proof.
  induction n as [|n IH]; intros a Hn H.
  - destruct a; [reflexivity|cbn in Hn; lia].
  - destruct a as [|c a]; [reflexivity|].
    destruct (startswith (String c a +:+ rest) key) eqn:E.
    + apply startswith_spec in E as [r Hr].
      pose proof (H "" r) as H0. rewrite append_nil_l in H0.
      specialize (H0 Hr). cbn [String.length] in H0.
      destruct (append_prefix_split key r (String c a) rest (eq_sym Hr)) as (a2 & Ha & ->);
        [cbn [String.length]; lia|].
      rewrite (replace_go_match key ins _ (a2 +:+ rest) Hk).
      2:{ rewrite Ha, append_assoc. reflexivity. }
      rewrite (replace_go_match key ins _ a2 Hk Ha), append_assoc. f_equal.
      assert (Hlen : String.length (String c a) = String.length key + String.length a2)
        by (rewrite Ha, length_append; reflexivity).
      assert (0 < String.length key) by (destruct key; [congruence|cbn; lia]).
      apply IH; [cbn [String.length] in *; lia|].
      intros x y Hxy Hx.
      specialize (H (key +:+ x) y). rewrite Ha in H.
      rewrite !append_assoc, Hxy in H. specialize (H eq_refl).
      rewrite !length_append in H. lia.
    + assert (E' : startswith (String c a) key = false).
      { destruct (startswith (String c a) key) eqn:E'; [|reflexivity].
        apply startswith_spec in E' as [r Hr]. rewrite Hr, append_assoc in E.
        rewrite startswith_app in E. discriminate. }
      rewrite append_cons in E |- *. cbn [replace_go]. rewrite E, E', append_cons.
      f_equal. apply IH; [cbn in Hn; lia|].
      intros x y Hxy Hx. specialize (H (String c x) y).
      rewrite !append_cons, Hxy in H. specialize (H eq_refl).
      cbn [String.length] in H. lia.
Qed.

(** A substitution leaves a stretch of the page as it is when no
    occurrence of its search key overlaps the stretch. *)
Lemma replace_all_keeps_stretch key ins a t b :
  key <> "" ->
  (forall x y, a +:+ t +:+ b = x +:+ key +:+ y ->
               String.length x + String.length key <= String.length a
               \/ String.length a + String.length t <= String.length x) ->
  replace_all key ins (a +:+ t +:+ b)
  = replace_all key ins a +:+ t +:+ replace_all key ins b.
Proof.
  intros Hk H. unfold replace_all.
  destruct (String.eqb_spec key ""); [contradiction|].
  assert (0 < String.length key) by (destruct key; [congruence|cbn; lia]).
  rewrite (replace_go_before key ins (t +:+ b) Hk (String.length a) a (le_n _)).
  - f_equal. apply replace_go_untouched. intros x y Hxy.
    specialize (H (a +:+ x) y). rewrite append_assoc, <- Hxy in H.
    specialize (H eq_refl). rewrite length_append in H. lia.
  - intros x y Hxy Hx. specialize (H x y Hxy). lia.
Qed.

Lemma replace_go_absent key ins s :
  contains s key = false -> replace_go key ins 0 s = s.
Proof.
  induction s as [|c s IH]; intros H; [reflexivity|].
  apply contains_cons_false in H as [Hs Hc].
  cbn [replace_go]. rewrite Hs, (IH Hc). reflexivity.
Qed.









(** C7, as amended.  A pair whose download raises is skipped: whatever the
    pairs before it did, the loop goes on with the pairs after it, with
    the page and the list for packaging as they were before the attempt,
    so it adds no substitution and no entry.  Its original text stays
    where it is under the substitution made for another pair as long as
    no occurrence of that pair's (non-empty) original text overlaps it. *)
Theorem failed_download_is_skipped `{rt : Runtime}
    (destination_dir destdir_name : string) (l1 l2 : list (string * string))
    (link rel_link page : string) (created : list string) (w : World)
    (page1 : string) (created1 : list string) (w1 w2 : World) (e : exn) :
  download_links destination_dir destdir_name l1 page created w
    = (Ok (page1, created1), w1) ->
  download_media link
    (path_join destination_dir (get_usable_filename_from_url link)) w1
    = (Raise e, w2) ->
  download_links destination_dir destdir_name (l1 ++ (link, rel_link) :: l2)
    page created w
  = download_links destination_dir destdir_name l2 page1 created1 w2
  /\ (forall key ins a b,
        key <> "" -> page1 = a +:+ rel_link +:+ b ->
        (forall x y, page1 = x +:+ key +:+ y ->
                     String.length x + String.length key <= String.length a
                     \/ String.length a + String.length rel_link <= String.length x) ->
        replace_all key ins page1
        = replace_all key ins a +:+ rel_link +:+ replace_all key ins b).
Proof.
  intros H1 Hd. split.
  - rewrite (download_links_app _ _ l1 _ _ _ _ _ _ _ H1).
    cbn [download_links]. rewrite Hd. reflexivity.
  - intros key ins a b Hk -> Hno. apply replace_all_keeps_stretch; assumption.
Qed.

(** On the page with the two images: the first is saved and rewritten,
    the second fails and the loop ends with the page and the list the
    first one left. *)
Lemma failed_download_is_skipped_witness :
  fst (@download_links overlap_rt "/home/u/site" "site"
         [("http://x.com/a.png", "/a.png"); ("http://x.com/a.png.bak", "/a.png.bak")]
         overlap_html [] empty_world)
  = Ok ("<img src='./x.com_a.png'><img src='./x.com_a.png.bak'>", ["site/x.com_a.png"]).
Proof.
  pose proof (@failed_download_is_skipped overlap_rt "/home/u/site" "site"
                [("http://x.com/a.png", "/a.png")] []
                "http://x.com/a.png.bak" "/a.png.bak" overlap_html [] empty_world
                "<img src='./x.com_a.png'><img src='./x.com_a.png.bak'>"
                ["site/x.com_a.png"]
                (set_file "/home/u/site/x.com_a.png" "PNG"
                   (log_request "http://x.com/a.png" empty_world))
                (log_request "http://x.com/a.png.bak"
                   (set_file "/home/u/site/x.com_a.png" "PNG"
                      (log_request "http://x.com/a.png" empty_world)))
                (RequestException "connection refused") eq_refl eq_refl) as [H _].
  cbn [app] in H. rewrite H. reflexivity.
Defined.

(** C7, as stated, fails: the second image is not fetched, and its
    reference is nevertheless changed by the substitution made for the
    first; the rewritten page no longer holds it. *)
Lemma failed_download_text_counterexample :
  let final := @main overlap_rt ["http://x.com/"] "site"
                 {| ignore_js := false; zip := false; ignore := None |} empty_world in
  fst final = Ok tt
  /\ (forall h, @server overlap_rt h "http://x.com/a.png.bak"
                = Failure (RequestException "connection refused"))
  /\ contains overlap_html "/a.png.bak" = true
  /\ files (snd final) !! "/home/u/site/index.html"
     = Some "<img src='./x.com_a.png'><img src='./x.com_a.png.bak'>"
  /\ contains "<img src='./x.com_a.png'><img src='./x.com_a.png.bak'>" "/a.png.bak"
     = false.
Proof.
  cbv zeta. repeat split; vm_compute; reflexivity.
Qed.

(** ** [copy_page], when it ends without an exception *)

Section Page.
Context {rt : Runtime}.


End Page.






(** ** The batch *)

(** C2, as amended.  In a batch run in an existing destination, a page
    answered with a status other than 200 is left at that: nothing is
    written for it and the batch goes on with the next page.  A page whose
    GET raises is requested once, not again, and the exception leaves
    [main]: the pages after it are not processed. *)
Theorem page_fetch_failure `{rt : Runtime}
    (u : string) (rest : list string) (d : string) (args : Args) (w : World) :
  abspath d ∈ dirs w ->
  (forall r, attempt w u 0 = Ok r -> status_code r <> 200%Z ->
             main (u :: rest) d args w = main rest d args (log_request u w))
  /\ (forall e, attempt w u 0 = Raise e ->
                main (u :: rest) d args w = (Raise e, log_request u w)).
Proof.
  intros Hd.
  assert (Hmain : forall urls w0, dirs w0 = dirs w ->
            main urls d args w0
            = for_each urls (fun u => copy_page u (abspath d) args) w0).
  { intros urls w0 Hw. unfold main, bind. rewrite Hw.
    rewrite bool_decide_eq_true_2 by exact Hd. reflexivity. }
  split.
  - intros r Hat Hr. rewrite !Hmain by reflexivity.
    cbn [for_each]. unfold bind at 1. unfold copy_page at 1. unfold bind at 1.
    rewrite session_get_attempt, Hat.
    destruct (Z.eqb_spec (status_code r) 200); [contradiction|]. reflexivity.
  - intros e Hat. rewrite Hmain by reflexivity.
    cbn [for_each]. unfold bind at 1. unfold copy_page at 1. unfold bind at 1.
    rewrite session_get_attempt, Hat. reflexivity.
Qed.

(** Against the server that answers 404 to everything, the first page of
    a batch is dropped and the batch goes on with the second. *)
Lemma page_fetch_failure_witness :
  @main missing_rt ["http://x.com/a"; "http://x.com/b"] "site"
    {| ignore_js := false; zip := false; ignore := None |}
    (add_dir "/home/u/site" empty_world)
  = @main missing_rt ["http://x.com/b"] "site"
      {| ignore_js := false; zip := false; ignore := None |}
      (log_request "http://x.com/a" (add_dir "/home/u/site" empty_world)).
Proof.
  destruct (@page_fetch_failure missing_rt "http://x.com/a" ["http://x.com/b"] "site"
              {| ignore_js := false; zip := false; ignore := None |}
              (add_dir "/home/u/site" empty_world)) as [H _].
  - change (@abspath missing_rt "site") with "/home/u/site".
    cbn [add_dir dirs]. apply elem_of_union_l, elem_of_singleton. reflexivity.
  - apply (H not_found); [reflexivity|discriminate].
Defined.

(** C2, as stated, fails: the first page of the batch cannot be reached;
    it is requested once, the exception ends the run and the second page
    is never requested. *)
Lemma page_fetch_failure_counterexample :
  let final := @main unreachable_rt ["http://x.com/"; "http://y.com/"] "site"
                 {| ignore_js := false; zip := false; ignore := None |} empty_world in
  fst final = Raise (RequestException "connection refused")
  /\ history (snd final) = ["http://x.com/"]
  /\ (forall h, exists r,
        @server unreachable_rt h "http://y.com/" = Answer r None
        /\ status_code r = 200%Z).
Proof.
  cbv zeta. split; [|split].
  - vm_compute. reflexivity.
  - vm_compute. reflexivity.
  - intros h. eexists. split; reflexivity.
Qed.

(** ** Packaging *)

(** C4: what the code does.  On the example site, archived with [zip] set
    into [site] under the working directory, the archive is named after
    the destination and holds the two resource files; the page file is on
    disk, and is not a member. *)
Theorem zip_archive_lacks_page :
  let final := snd (@main page_rt ["http://x.com/"] "site"
                      {| ignore_js := false; zip := true; ignore := None |}
                      empty_world) in
  archives final !! "/home/u/site.zip"
  = Some [("site/x.com_a.png", "PNGDATA"); ("site/x.com_s.css", "Not Found")]
  /\ files final !! "/home/u/site/index.html"
     = Some "<img src='./x.com_a.png'><link rel='stylesheet' href='./x.com_s.css'>".
Proof.
  cbv zeta. split; vm_compute; reflexivity.
Qed.

(** * Further properties *)

(** ** [get_retry], whatever the server does *)

Lemma get_retry_loop_outcome `{rt : Runtime} n :
  forall retry_no max_retries r0 u w res w',
  (retry_no + Z.of_nat (S n) = max_retries)%Z ->
  get_retry_loop (S n) retry_no max_retries r0 u w = (res, w') ->
  exists k, k <= n /\ w' = after_requests w u (S k)
    /\ match res with
       | Ok v => exists r, v = Got r /\ attempt w u k = Ok r
                           /\ (status_code r = 200%Z \/ k = n)
       | Raise e => k = n /\ attempt w u n = Raise e
       end.
Proof.
  induction n as [|n IH]; intros retry_no max_retries r0 u w res w' Hmax H.
  - cbn [get_retry_loop] in H. rewrite session_get_attempt in H.
    exists 0. split; [lia|].
    destruct (attempt w u 0) as [resp|err] eqn:Hat; cbn [rv_status] in H.
    + destruct (Z.eqb_spec (status_code resp) 200) as [E|E];
        injection H as <- <-; (split; [reflexivity|]); exists resp; auto.
    + destruct (Z.eqb_spec retry_no (max_retries - 1)); [|lia].
      injection H as <- <-. auto.
  - remember (S n) as m eqn:Hm.
    cbn [get_retry_loop] in H. rewrite session_get_attempt in H.
    destruct (attempt w u 0) as [resp|err] eqn:Hat; cbn [rv_status] in H.
    + destruct (Z.eqb_spec (status_code resp) 200) as [E|E].
      * injection H as <- <-. exists 0. split; [lia|]. split; [reflexivity|].
        exists resp. auto.
      * subst m. apply IH in H; [|lia]. destruct H as (k & Hk & -> & Hres).
        exists (S k). split; [lia|]. split; [apply after_requests_shift|].
        destruct res as [v|e].
        -- destruct Hres as (r & -> & Ha & Hs). exists r. rewrite attempt_shift in Ha.
           split; [reflexivity|]. split; [exact Ha|]. destruct Hs; [auto|right; lia].
        -- destruct Hres as [-> Ha]. rewrite attempt_shift in Ha. auto.
    + destruct (Z.eqb_spec retry_no (max_retries - 1)); [lia|].
      change (0 =? 200)%Z with false in H. cbv iota in H.
      subst m. apply IH in H; [|lia]. destruct H as (k & Hk & -> & Hres).
      exists (S k). split; [lia|]. split; [apply after_requests_shift|].
      destruct res as [v|e].
      * destruct Hres as (r & -> & Ha & Hs). exists r. rewrite attempt_shift in Ha.
        split; [reflexivity|]. split; [exact Ha|]. destruct Hs; [auto|right; lia].
      * destruct Hres as [-> Ha]. rewrite attempt_shift in Ha. auto.
Qed.

(** X1.  Whatever the server answers, [get_retry] makes at most
    [max_retries] requests, all of the same URL.  What it returns is
    always a response, never the class [requests.Response] the handler
    puts in [r]: the response of the last request made, which has status
    200 or is that of the last attempt allowed.  What it raises is the
    exception of the last attempt allowed, or, when [max_retries] is not
    positive, [UnboundLocalError] without any request. *)
Theorem get_retry_outcome `{rt : Runtime} (u : string) (max_retries : Z)
    (w : World) (res : result retry_value) (w' : World) :
  get_retry u max_retries w = (res, w') ->
  exists k, k <= Z.to_nat max_retries /\ w' = after_requests w u k
    /\ match res with
       | Ok v => exists r, v = Got r /\ 0 < k /\ attempt w u (k - 1) = Ok r
                           /\ (status_code r = 200%Z \/ k = Z.to_nat max_retries)
       | Raise e =>
           (k = 0 /\ (max_retries <= 0)%Z /\ e = UnboundLocalError "r")
           \/ (0 < k /\ k = Z.to_nat max_retries /\ attempt w u (k - 1) = Raise e)
       end.
Proof.
  unfold get_retry. intros H.
  destruct (Z.to_nat max_retries) as [|n] eqn:Hn.
  - cbn in H. injection H as <- <-. exists 0. split; [lia|]. split; [reflexivity|].
    left. split; [reflexivity|]. split; [lia|reflexivity].
  - apply get_retry_loop_outcome in H; [|lia].
    destruct H as (k & Hk & -> & Hres). exists (S k).
    split; [lia|]. split; [reflexivity|].
    replace (S k - 1) with k by lia.
    destruct res as [v|e].
    + destruct Hres as (r & -> & Ha & Hs). exists r.
      split; [reflexivity|]. split; [lia|]. split; [exact Ha|].
      destruct Hs; [auto|right; lia].
    + destruct Hres as [-> Ha]. right. split; [lia|]. split; [reflexivity|exact Ha].
Qed.

(** Three attempts against the server that always answers 404. *)
Lemma get_retry_outcome_witness :
  exists k, k <= 3
    /\ snd (@get_retry missing_rt "http://x.com/missing" 3 empty_world)
       = @after_requests empty_world "http://x.com/missing" k.
Proof.
  destruct (@get_retry_outcome missing_rt "http://x.com/missing" 3 empty_world
              (fst (@get_retry missing_rt "http://x.com/missing" 3 empty_world))
              (snd (@get_retry missing_rt "http://x.com/missing" 3 empty_world))
              eq_refl) as (k & Hk & Hw & _).
  exists k. split; [exact Hk|exact Hw].
Defined.

(** ** The tokens of [srcset] attributes *)

Lemma split_first_no_space s : has_char " " (split_first " " s) = false.
Proof.
  unfold split_first. induction s as [|c s IH]; [reflexivity|].
  cbn [split_go startswith].
  destruct (Ascii.eqb_spec " " c) as [<-|Hc]; [reflexivity|].
  destruct (split_go " " 0 s) as [p ps]. cbn [fst has_char] in IH |- *.
  destruct (Ascii.eqb_spec c " "); [congruence|exact IH].
Qed.

Lemma srcset_urls_length raw : 1 <= length (srcset_urls raw).
Proof.
  unfold srcset_urls, split. destruct (split_go ", " 0 raw). cbn. lia.
Qed.

(** X2.  Every URL that [get_srcset_urls_from_tags] returns is free of
    spaces, and each tag that has a [srcset] attribute gives at least one
    URL, be its value empty. *)
Theorem srcset_tokens (tags : list Tag) :
  Forall (fun u => has_char " " u = false) (get_srcset_urls_from_tags tags)
  /\ length (omap (fun t => attrs t !! "srcset") tags)
     <= length (get_srcset_urls_from_tags tags).
Proof.
  unfold get_srcset_urls_from_tags.
  induction (omap (fun t => attrs t !! "srcset") tags) as [|raw raws [IH1 IH2]].
  - split; [constructor|reflexivity].
  - cbn [map concat]. split.
    + apply Forall_app. split; [|exact IH1].
      unfold srcset_urls. apply Forall_map, Forall_forall. intros x _.
      apply split_first_no_space.
    + rewrite length_app. pose proof (srcset_urls_length raw). cbn [length]. lia.
Qed.

(** ** Where the files go *)

Lemma path_tail_no_slash p : has_char "/" p = false -> path_tail p = p.
Proof. destruct p as [|c p]; [reflexivity|]. cbn [path_tail]. intros ->. reflexivity. Qed.

Lemma path_tail_has_no_slash p : has_char "/" (path_tail p) = false.
Proof.
  induction p as [|c p IH]; [reflexivity|]. cbn [path_tail].
  destruct (has_char "/" (String c p)) eqn:E; [exact IH|exact E].
Qed.

Lemma path_tail_after_slash x f :
  has_char "/" f = false -> path_tail (x +:+ String "/" f) = f.
Proof.
  intros Hf. induction x as [|c x IH].
  - rewrite append_nil_l. cbn [path_tail has_char]. rewrite Ascii.eqb_refl.
    apply path_tail_no_slash, Hf.
  - rewrite append_cons. cbn [path_tail].
    change (String c (x +:+ String "/" f)) with (String c x +:+ String "/" f).
    rewrite has_char_app. cbn [has_char]. rewrite Ascii.eqb_refl, orb_true_r.
    exact IH.
Qed.

Lemma path_tail_join d f : has_char "/" f = false -> path_tail (path_join d f) = f.
Proof.
  intros Hf. unfold path_join.
  assert (Hs : startswith f "/" = false).
  { destruct f as [|c f]; [reflexivity|]. cbn [has_char] in Hf. cbn [startswith].
    rewrite Ascii.eqb_sym. destruct (Ascii.eqb c "/"); [discriminate|reflexivity]. }
  rewrite Hs. destruct (String.eqb_spec d "") as [->|Hd]; cbn [orb].
  - rewrite append_nil_l. apply path_tail_no_slash, Hf.
  - destruct (endswith d "/") eqn:E.
    + apply endswith_spec in E as [x ->]. rewrite append_assoc.
      apply path_tail_after_slash, Hf.
    + apply path_tail_after_slash, Hf.
Qed.

(** X3.  Whatever the URL, the derived file name holds no slash, so the
    file a resource is saved to is named directly in the destination
    directory: the last component of [os.path.join(destination_dir,
    new_filename)] is the derived name itself, and the same holds for the
    name recorded for packaging. *)
Theorem resource_saved_in_destination (destination_dir destdir_name u : string) :
  let new_filename := get_usable_filename_from_url u in
  has_char "/" new_filename = false
  /\ path_tail (path_join destination_dir new_filename) = new_filename
  /\ path_tail (path_join destdir_name new_filename) = new_filename.
Proof.
  intros f. pose proof (filename_no_slash u) as H. fold f in H.
  split; [exact H|]. split; apply path_tail_join, H.
Qed.

Lemma strip_app_char c s : strip c (s +:+ String c "") = strip c s.
Proof.
  unfold strip. induction s as [|a s IH].
  - rewrite append_nil_l. cbn [lstrip]. rewrite Ascii.eqb_refl. reflexivity.
  - rewrite append_cons. cbn [lstrip]. destruct (Ascii.eqb a c); [exact IH|].
    change (String a (s +:+ String c "")) with (String a s +:+ String c "").
    apply rstrip_app_char.
Qed.

(** X4.  The derived file name does not tell URLs apart that differ in
    their scheme only, or by a slash at the start or at the end of what
    follows the scheme: their files are the same file. *)
Theorem filename_collisions (scheme1 scheme2 rest : string) :
  has_char ":" scheme1 = false -> has_char ":" scheme2 = false ->
  get_usable_filename_from_url (scheme1 +:+ ":" +:+ rest)
  = get_usable_filename_from_url (scheme2 +:+ ":" +:+ rest)
  /\ get_usable_filename_from_url (scheme1 +:+ ":" +:+ String "/" rest)
     = get_usable_filename_from_url (scheme1 +:+ ":" +:+ rest)
  /\ get_usable_filename_from_url (scheme1 +:+ ":" +:+ rest +:+ "/")
     = get_usable_filename_from_url (scheme1 +:+ ":" +:+ rest).
Proof.
  intros H1 H2. rewrite !filename_unfold by assumption.
  split; [reflexivity|]. split.
  - unfold strip. cbn [lstrip]. rewrite Ascii.eqb_refl. reflexivity.
  - rewrite strip_app_char. reflexivity.
Qed.

Lemma filename_collisions_witness :
  get_usable_filename_from_url "http://x.com/a"
  = get_usable_filename_from_url "https://x.com/a".
Proof.
  destruct (filename_collisions "http" "https" "//x.com/a" eq_refl eq_refl) as [H _].
  exact H.
Defined.

(** ** The name of the archive *)

(** X5.  The archive is always made in the working directory: its name
    holds no slash.  It is [site.zip] when the destination is the working
    directory, and otherwise the last component of the destination
    followed by [.zip]. *)
Theorem zipfile_name_rule `{rt : Runtime} (parent name : string) :
  (forall d, has_char "/" (zipfile_name_of d) = false)
  /\ zipfile_name_of getcwd = "site.zip"
  /\ (has_char "/" name = false ->
      parent +:+ String "/" name <> getcwd ->
      zipfile_name_of (parent +:+ String "/" name) = name +:+ ".zip").
Proof.
  split; [|split].
  - intros d. unfold zipfile_name_of. rewrite has_char_app.
    destruct (String.eqb getcwd d); [reflexivity|].
    rewrite path_tail_has_no_slash. reflexivity.
  - unfold zipfile_name_of. rewrite String.eqb_refl. reflexivity.
  - intros Hn Hd. unfold zipfile_name_of.
    destruct (String.eqb_spec getcwd (parent +:+ String "/" name)); [congruence|].
    rewrite path_tail_after_slash by exact Hn. reflexivity.
Qed.

Lemma zipfile_name_rule_witness :
  @zipfile_name_of page_rt "/home/u" = "site.zip"
  /\ @zipfile_name_of page_rt "/srv/archive" = "archive.zip".
Proof.
  destruct (@zipfile_name_rule page_rt "/srv" "archive") as (_ & _ & H).
  split; [reflexivity|]. apply H; [reflexivity|discriminate].
Defined.

(** ** What the extractors return *)

Section ExtractorResults.
Context {rt : Runtime}.

Lemma elem_of_concat {A} (x : A) (ls : list (list A)) :
  x ∈ concat ls <-> exists l, x ∈ l /\ l ∈ ls.
Proof.
  rewrite list_elem_of_In, in_concat. split.
  - intros (l & Hl & Hx). exists l. rewrite !list_elem_of_In. auto.
  - intros (l & Hx & Hl). exists l. rewrite <- !list_elem_of_In. auto.
Qed.

(** The references read from the tags called [name]: the [src] values and
    the tokens of the [srcset] values. *)
Lemma elem_of_src_and_srcset name soup src :
  src ∈ omap (fun t => attrs t !! "src") (find_all name soup)
        ++ get_srcset_urls_from_tags (find_all name soup)
  <-> exists t, t ∈ soup /\ tag_name t = name
        /\ (attrs t !! "src" = Some src
            \/ exists raw, attrs t !! "srcset" = Some raw /\ src ∈ srcset_urls raw).
Proof.
  unfold get_srcset_urls_from_tags, find_all.
  rewrite elem_of_app, list_elem_of_omap. split.
  - intros [(t & Ht & Hs)|H].
    + apply list_elem_of_filter in Ht as [Hn Ht]. exists t. auto.
    + apply elem_of_concat in H as (toks & Hsrc & Htoks).
      apply list_elem_of_fmap in Htoks as (raw & -> & Hraw).
      apply list_elem_of_omap in Hraw as (t & Ht & Hs).
      apply list_elem_of_filter in Ht as [Hn Ht]. exists t. eauto 10.
  - intros (t & Ht & Hn & [Hs|(raw & Hs & Hsrc)]).
    + left. exists t. split; [|exact Hs]. apply list_elem_of_filter. auto.
    + right. apply elem_of_concat. exists (srcset_urls raw). split; [exact Hsrc|].
      apply list_elem_of_fmap. exists raw. split; [reflexivity|].
      apply list_elem_of_omap. exists t. split; [|exact Hs].
      apply list_elem_of_filter. auto.
Qed.

(** The last two steps of every extractor: the comprehension over the
    references, then [list(set(...))]. *)
Lemma links_of_references r srcs :
  links_of r (fun src => src ∈ srcs)
    (match resolve_all r srcs with
     | Raise e => Raise e
     | Ok links => Ok (set_list links)
     end)
  /\ ((forall src, src ∈ srcs -> exists u, resolves r src u)
      -> exists ps, resolve_all r srcs = Ok ps).
Proof.
  split.
  - destruct (resolve_all r srcs) as [ps|e] eqn:E; cbn [links_of].
    + split; [apply set_list_NoDup|]. split.
      * intros src Hs. destruct (resolve_all_each r srcs ps src E Hs) as [p Hp].
        exists (fst p). apply resolve_pair_ok in Hp as [_ Hp]. exact Hp.
      * intros u src. rewrite set_list_elem, (resolve_all_elem r srcs ps (u, src) E).
        split.
        -- intros (s0 & Hs0 & Hp). apply resolve_pair_ok in Hp as [Hsnd Hu].
           cbn [fst snd] in Hsnd, Hu. subst s0. auto.
        -- intros [Hs Hu]. exists src. split; [exact Hs|].
           apply resolve_pair_complete, Hu.
    + apply resolve_all_raise in E as (b & src & a & -> & _ & Hh & Hu).
      exists src. split; [|auto]. apply elem_of_app. right. apply elem_of_cons. auto.
  - intros Hall. apply resolve_all_returns. intros src Hs Hh.
    destruct (Hall src Hs) as [u Hu]. unfold resolves in Hu. rewrite Hh in Hu. eauto.
Qed.

Lemma links_of_ext r (read read' : string -> Prop) res :
  (forall src, read src <-> read' src) -> links_of r read res -> links_of r read' res.
Proof.
  intros Hrw. destruct res as [links|e]; cbn [links_of].
  - intros (Hnd & Hall & Hin). split; [exact Hnd|]. split.
    + intros src Hs. apply Hall, Hrw, Hs.
    + intros u src. rewrite Hin, Hrw. reflexivity.
  - intros (src & Hs & H). exists src. split; [apply Hrw, Hs|exact H].
Qed.

End ExtractorResults.

(** An image whose reference [urljoin] refuses: the extractor raises. *)
Remark unresolvable_reference_raises :
  @get_img_links page_rt
    [ {| tag_name := "img"; attrs := {[ "src" := "//[" ]}; list_attrs := ∅ |} ]
    {| status_code := 200; url := "http://x.com/"; chunks := [] |}
  = Raise (ValueError "Invalid IPv6 URL").
Proof. vm_compute. reflexivity. Qed.

(** X6.  [get_img_links] and [get_source_links] read the [src] value of
    every tag of their name and every token of its [srcset] value.  They
    return exactly when [urljoin] accepts every such reference that does
    not start with [http]; the list then holds each pair once, and a pair
    is in it exactly when its text is such a reference and its URL is the
    text itself (when it starts with [http]) or what [urljoin] gives for
    it.  Otherwise they raise what [urljoin] raises on one of these
    references. *)
Theorem image_and_source_links `{rt : Runtime} (soup : list Tag) (r : Response) :
  let read name src :=
    exists t, t ∈ soup /\ tag_name t = name
      /\ (attrs t !! "src" = Some src
          \/ exists raw, attrs t !! "srcset" = Some raw /\ src ∈ srcset_urls raw) in
  (links_of r (read "img") (get_img_links soup r)
   /\ ((forall src, read "img" src -> exists u, resolves r src u)
       <-> exists links, get_img_links soup r = Ok links))
  /\ (links_of r (read "source") (get_source_links soup r)
      /\ ((forall src, read "source" src -> exists u, resolves r src u)
          <-> exists links, get_source_links soup r = Ok links)).
Proof.
  intros read.
  assert (Hgen : forall name,
            let res := match resolve_all r
                                (omap (fun t => attrs t !! "src") (find_all name soup)
                                 ++ get_srcset_urls_from_tags (find_all name soup)) with
                       | Raise e => Raise e
                       | Ok links => Ok (set_list links)
                       end in
            links_of r (read name) res
            /\ ((forall src, read name src -> exists u, resolves r src u)
                <-> exists links, res = Ok links)).
  { intros name res.
    destruct (links_of_references r
                (omap (fun t => attrs t !! "src") (find_all name soup)
                 ++ get_srcset_urls_from_tags (find_all name soup))) as [Hl Hr].
    fold res in Hl.
    assert (Hread : forall src,
              src ∈ omap (fun t => attrs t !! "src") (find_all name soup)
                    ++ get_srcset_urls_from_tags (find_all name soup)
              <-> read name src) by (intros src; apply elem_of_src_and_srcset).
    apply (links_of_ext r _ (read name) res Hread) in Hl.
    split; [exact Hl|]. split.
    - intros Hall. destruct Hr as [ps Hps].
      + intros src Hs. apply Hall, Hread, Hs.
      + exists (set_list ps). unfold res. rewrite Hps. reflexivity.
    - intros [links Hres]. rewrite Hres in Hl. destruct Hl as (_ & Hall & _). exact Hall. }
  split; apply Hgen.
Qed.

Section Stylesheets.
Context {rt : Runtime}.

Lemma stylesheet_hrefs_ok links : forall hrefs,
  stylesheet_hrefs links = Ok hrefs ->
  (forall t, t ∈ links -> list_attrs t !! "rel" = Some ["stylesheet"] ->
             attrs t !! "href" <> None)
  /\ (forall h, h ∈ hrefs <->
        exists t, t ∈ links /\ list_attrs t !! "rel" = Some ["stylesheet"]
                  /\ attrs t !! "href" = Some h).
Proof.
  induction links as [|l links IH]; intros hrefs H.
  - cbn in H. injection H as <-. split.
    + intros t Ht. inversion Ht.
    + intros h. split; [intros Hh; inversion Hh|intros (t & Ht & _); inversion Ht].
  - cbn [stylesheet_hrefs] in H. case_bool_decide as Hrel.
    + destruct (attrs l !! "href") as [href|] eqn:Hhref; [|discriminate].
      destruct (stylesheet_hrefs links) as [hs|e]; [|discriminate].
      injection H as <-. destruct (IH hs eq_refl) as [IH1 IH2]. split.
      * intros t Ht Hr. apply elem_of_cons in Ht as [->|Ht]; [congruence|auto].
      * intros h. rewrite elem_of_cons, IH2. split.
        -- intros [->|(t & Ht & Hr & Hh)].
           ++ exists l. split; [apply elem_of_cons; auto|auto].
           ++ exists t. split; [apply elem_of_cons; auto|auto].
        -- intros (t & Ht & Hr & Hh). apply elem_of_cons in Ht as [->|Ht].
           ++ left. congruence.
           ++ right. eauto.
    + destruct (IH hrefs H) as [IH1 IH2]. split.
      * intros t Ht Hr. apply elem_of_cons in Ht as [->|Ht]; [contradiction|auto].
      * intros h. rewrite IH2. split.
        -- intros (t & Ht & Hr & Hh). exists t. split; [apply elem_of_cons; auto|auto].
        -- intros (t & Ht & Hr & Hh). apply elem_of_cons in Ht as [->|Ht];
             [contradiction|eauto].
Qed.

Lemma stylesheet_hrefs_raise links e :
  stylesheet_hrefs links = Raise e ->
  e = KeyError "href"
  /\ exists t, t ∈ links /\ list_attrs t !! "rel" = Some ["stylesheet"]
               /\ attrs t !! "href" = None.
Proof.
  induction links as [|l links IH]; [discriminate|].
  cbn [stylesheet_hrefs]. case_bool_decide as Hrel.
  - destruct (attrs l !! "href") eqn:Hh.
    + destruct (stylesheet_hrefs links) as [hs|e']; [discriminate|].
      intros [= <-]. destruct (IH eq_refl) as (-> & t & Ht & Hr & Hn).
      split; [reflexivity|]. exists t. split; [apply elem_of_cons; auto|auto].
    + intros [= <-]. split; [reflexivity|].
      exists l. split; [apply elem_of_cons; auto|auto].
  - intros E. destruct (IH E) as (-> & t & Ht & Hr & Hn).
    split; [reflexivity|]. exists t. split; [apply elem_of_cons; auto|auto].
Qed.

End Stylesheets.

(** X7.  [get_stylesheet_links] reads the [href] of every [link] tag whose
    [rel] is the one token [stylesheet], and of no other tag (a [link]
    whose [rel] holds a second token is passed over).  When one of these
    tags has no [href] it raises [KeyError('href')], whatever the other
    references are.  When all have one, it returns exactly when [urljoin]
    accepts every [href] that does not start with [http], with each pair
    once and exactly the pairs of these [href] values; otherwise it raises
    what [urljoin] raises on one of them. *)
Theorem stylesheet_links_result `{rt : Runtime} (soup : list Tag) (r : Response) :
  let selected t :=
    t ∈ soup /\ tag_name t = "link" /\ list_attrs t !! "rel" = Some ["stylesheet"] in
  let read h := exists t, selected t /\ attrs t !! "href" = Some h in
  ((exists t, selected t /\ attrs t !! "href" = None) ->
   get_stylesheet_links soup r = Raise (KeyError "href"))
  /\ ((forall t, selected t -> attrs t !! "href" <> None) ->
      links_of r read (get_stylesheet_links soup r))
  /\ ((exists links, get_stylesheet_links soup r = Ok links)
      <-> forall t, selected t ->
            exists h, attrs t !! "href" = Some h /\ exists u, resolves r h u).
Proof.
  intros selected read.
  assert (Hsel : forall t, selected t
            <-> t ∈ find_all "link" soup /\ list_attrs t !! "rel" = Some ["stylesheet"]).
  { intros t. unfold selected, find_all. rewrite list_elem_of_filter. tauto. }
  assert (Hraise : (exists t, selected t /\ attrs t !! "href" = None) ->
            get_stylesheet_links soup r = Raise (KeyError "href")).
  { intros (t & Ht & Hh). apply Hsel in Ht as [Ht Hr]. unfold get_stylesheet_links.
    rewrite stylesheet_hrefs_missing_href; [reflexivity|]. eauto. }
  assert (Hhrefs : (forall t, selected t -> attrs t !! "href" <> None) ->
            exists hs, stylesheet_hrefs (find_all "link" soup) = Ok hs
                       /\ forall h, h ∈ hs <-> read h).
  { intros Hall. destruct (stylesheet_hrefs (find_all "link" soup)) as [hs|e] eqn:E.
    - exists hs. split; [reflexivity|]. intros h.
      rewrite (proj2 (stylesheet_hrefs_ok _ _ E) h). unfold read. split.
      + intros (t & Ht & Hr & Hh). exists t. split; [apply Hsel; auto|exact Hh].
      + intros (t & Ht & Hh). apply Hsel in Ht as [Ht Hr]. eauto.
    - apply stylesheet_hrefs_raise in E as (_ & t & Ht & Hr & Hn).
      exfalso. apply (Hall t); [apply Hsel; auto|exact Hn]. }
  split; [exact Hraise|]. split.
  - intros Hall. destruct (Hhrefs Hall) as (hs & E & Hread).
    unfold get_stylesheet_links. rewrite E.
    apply (links_of_ext r _ read _ Hread), links_of_references.
  - split.
    + intros [links H] t Ht.
      destruct (attrs t !! "href") as [h|] eqn:Hh.
      2:{ rewrite Hraise in H by eauto. discriminate. }
      exists h. split; [reflexivity|].
      assert (Hall : forall t, selected t -> attrs t !! "href" <> None).
      { intros t' Ht' Hn. rewrite Hraise in H by eauto. discriminate. }
      destruct (Hhrefs Hall) as (hs & E & Hread).
      unfold get_stylesheet_links in H. rewrite E in H.
      destruct (resolve_all r hs) as [ps|e] eqn:Eps; [|discriminate].
      destruct (resolve_all_each r hs ps h Eps) as [p Hp].
      { apply Hread. exists t. auto. }
      exists (fst p). apply resolve_pair_ok in Hp as [_ Hp]. exact Hp.
    + intros Hall.
      assert (Hall' : forall t, selected t -> attrs t !! "href" <> None).
      { intros t Ht. destruct (Hall t Ht) as (h & -> & _). discriminate. }
      destruct (Hhrefs Hall') as (hs & E & Hread).
      unfold get_stylesheet_links. rewrite E.
      destruct (proj2 (links_of_references r hs)) as [ps Hps].
      * intros h Hh. apply Hread in Hh as (t & Ht & Hh).
        destruct (Hall t Ht) as (h' & Hh' & Hu).
        assert (h' = h) as -> by congruence. exact Hu.
      * rewrite Hps. eauto.
Qed.

(** ** What a download leaves behind *)



(** ** Substitution of a text that does not occur *)

(** X9.  The substitution made for a downloaded resource leaves the page
    as it is, byte for byte, when the original text of the reference
    does not occur in the bytes of the page (the URL holding no
    backslash). *)
Theorem substitution_of_absent_text `{rt : Runtime} (link rel_link page : string) :
  contains page rel_link = false ->
  has_char "\" link = false ->
  re_sub_escaped rel_link (path_join "." (get_usable_filename_from_url link)) page
  = Ok page.
Proof.
  intros Hc Hb. rewrite (re_sub_escaped_local_name _ _ _ Hb). f_equal.
  unfold replace_all. destruct (String.eqb_spec rel_link "") as [->|_].
  - destruct page; discriminate Hc.
  - apply replace_go_absent, Hc.
Qed.

Lemma substitution_of_absent_text_witness :
  @re_sub_escaped page_rt "/b.png"
    (path_join "." (get_usable_filename_from_url "http://x.com/b.png")) page_html
  = Ok page_html.
Proof. apply substitution_of_absent_text; reflexivity. Defined.

(** ** The archive *)

Lemma zip_members_spec `{rt : Runtime} (fs : gmap string string) (new_files : list string) :
  map fst (zip_members fs new_files) `prefix_of` new_files
  /\ (forall f data, (f, data) ∈ zip_members fs new_files -> fs !! realpath f = Some data)
  /\ ((forall f, f ∈ new_files -> is_Some (fs !! realpath f)) ->
      map fst (zip_members fs new_files) = new_files).
Proof.
  induction new_files as [|f l (IH1 & IH2 & IH3)]; cbn [zip_members].
  - split; [reflexivity|]. split; [|reflexivity]. intros f data H. inversion H.
  - destruct (fs !! realpath f) as [data|] eqn:E.
    + cbn [map fst]. split; [apply prefix_cons, IH1|]. split.
      * intros f' data' H. apply elem_of_cons in H as [[= -> ->]|H]; [exact E|auto].
      * intros Hall. f_equal. apply IH3. intros f' Hf'. apply Hall, elem_of_cons. auto.
    + split; [apply prefix_nil|]. split.
      * intros f' data' H. inversion H.
      * intros Hall. destruct (Hall f) as [x Hx]; [apply elem_of_cons; auto|congruence].
Qed.


(** What the steps after the archive need of [zip_files]. *)
Lemma zip_files_writes `{rt : Runtime} (new_files : list string)
    (destination_dir : string) (w : World) :
  exists w', zip_files new_files destination_dir w = (Ok tt, w')
    /\ files w' = files w /\ history w' = history w /\ dirs w' = dirs w
    /\ (can_open (zipfile_name_of destination_dir) = true ->
        archives w' !! realpath (zipfile_name_of destination_dir)
        = Some (zip_members (files w) new_files)).
Proof.
  unfold zip_files. destruct (can_open (zipfile_name_of destination_dir)).
  - eexists. split; [reflexivity|]. cbn [set_archive files history dirs archives].
    repeat split. intros _. apply lookup_insert_eq.
  - exists w. repeat split. discriminate.
Qed.


(** ** What [copy_page] and [main] do to the world *)

Section Effects.
Context {rt : Runtime}.

(** A step that keeps the directories, removes no file, and writes only
    files named in [d]. *)
Let grows (d : string) (w w' : World) : Prop :=
  dirs w' = dirs w
  /\ (forall k, is_Some (files w !! k) -> is_Some (files w' !! k))
  /\ writes_within d w w'.

Lemma grows_refl d w : grows d w w.
Proof. split; [reflexivity|]. split; [auto|]. intros k H. congruence. Qed.

Lemma grows_trans d w1 w2 w3 : grows d w1 w2 -> grows d w2 w3 -> grows d w1 w3.
Proof.
  intros (Hd1 & Hk1 & Hw1) (Hd2 & Hk2 & Hw2). split; [congruence|]. split; [auto|].
  intros k H. destruct (decide (files w2 !! k = files w1 !! k)) as [E|E].
  - apply Hw2. congruence.
  - apply Hw1, E.
Qed.

Lemma grows_same_files d w w' :
  files w' = files w -> dirs w' = dirs w -> grows d w w'.
Proof.
  intros Hf Hd. split; [exact Hd|]. split.
  - intros k. rewrite Hf. auto.
  - intros k H. rewrite Hf in H. congruence.
Qed.

Lemma grows_set_file d f data w :
  has_char "/" f = false ->
  grows d w (set_file (realpath (path_join d f)) data w).
Proof.
  intros Hf. split; [reflexivity|]. unfold writes_within. cbn [set_file files]. split.
  - intros k Hk. destruct (decide (realpath (path_join d f) = k)) as [<-|Hne].
    + rewrite lookup_insert_eq. eauto.
    + rewrite lookup_insert_ne by exact Hne. exact Hk.
  - intros k Hk. destruct (decide (realpath (path_join d f) = k)) as [<-|Hne].
    + eauto.
    + rewrite lookup_insert_ne in Hk by exact Hne. congruence.
Qed.

Lemma write_file_grows d f data w res w' :
  has_char "/" f = false ->
  write_file (path_join d f) data w = (res, w') -> grows d w w'.
Proof.
  intros Hf. unfold write_file. destruct (can_open _); intros [= <- <-].
  - apply grows_set_file, Hf.
  - apply grows_refl.
Qed.

Lemma download_media_grows d u w res w' :
  download_media u (path_join d (get_usable_filename_from_url u)) w = (res, w') ->
  grows d w w'.
Proof.
  unfold download_media. destruct (server (history w) u) as [r cut|e].
  - destruct (can_open _).
    + intros H.
      assert (w' = set_file (realpath (path_join d (get_usable_filename_from_url u)))
                     (String.concat "" (filter (fun chunk => chunk <> "") (chunks r)))
                     (log_request u w)) as ->
        by (destruct cut; injection H as <- <-; reflexivity).
      eapply grows_trans; [|apply grows_set_file, filename_no_slash].
      apply grows_same_files; reflexivity.
    + intros [= <- <-]. apply grows_same_files; reflexivity.
  - intros [= <- <-]. apply grows_same_files; reflexivity.
Qed.

Lemma download_links_grows d n links : forall page created w res w',
  download_links d n links page created w = (res, w') -> grows d w w'.
Proof.
  induction links as [|[link rel_link] links IH]; intros page created w res w' H.
  - injection H as <- <-. apply grows_refl.
  - cbn [download_links] in H.
    destruct (download_media link _ w) as [[[]|e] w1] eqn:Hd;
      apply download_media_grows in Hd.
    + destruct (re_sub_escaped rel_link _ page) as [page1|e].
      * eapply grows_trans; [exact Hd|]. exact (IH _ _ _ _ _ H).
      * injection H as <- <-. exact Hd.
    + eapply grows_trans; [exact Hd|]. exact (IH _ _ _ _ _ H).
Qed.

Lemma zip_step_grows d created (b : bool) w :
  exists w', (if b then zip_files created d else ret tt) w = (Ok tt, w')
             /\ files w' = files w /\ dirs w' = dirs w /\ history w' = history w.
Proof.
  destruct b; [|exists w; repeat split].
  destruct (zip_files_writes created d w) as (w' & H & Hf & Hh & Hd & _).
  exists w'. auto.
Qed.

(** [copy_page], step by step, for any outcome. *)
Lemma copy_page_cases u d args w res w' :
  copy_page u d args w = (res, w') ->
  let destdir_name := if String.eqb getcwd d then "." else path_tail d in
  let base_page_path := path_join d "index.html" in
  let w1 := log_request u w in
  (exists e, attempt w u 0 = Raise e /\ res = Raise e /\ w' = w1)
  \/ (exists r, attempt w u 0 = Ok r /\ status_code r <> 200%Z /\ res = Ok tt /\ w' = w1)
  \/ (exists r, attempt w u 0 = Ok r /\ status_code r = 200%Z
        /\ ((can_open base_page_path = false
             /\ res = Raise (OSError base_page_path) /\ w' = w1)
            \/ (can_open base_page_path = true
                /\ let w2 := set_file (realpath base_page_path) (content r) w1 in
                   (exists e, collect_links args r = Raise e /\ res = Raise e /\ w' = w2)
                   \/ exists links lres w3,
                        collect_links args r = Ok links
                        /\ download_links d destdir_name (apply_ignore args links)
                             (content r) [] w2 = (lres, w3)
                        /\ match lres with
                           | Raise e => res = Raise e /\ w' = w3
                           | Ok (page', created) =>
                               res = Ok tt
                               /\ exists w4,
                                    (if zip args then zip_files created d else ret tt) w3
                                    = (Ok tt, w4)
                                    /\ w' = set_file (realpath base_page_path) page' w4
                           end))).
Proof.
  intros H destdir_name base_page_path w1.
  unfold copy_page, bind in H. rewrite session_get_attempt in H. fold w1 in H.
  destruct (attempt w u 0) as [r|e]; [|left; injection H as <- <-; eauto].
  right. destruct (Z.eqb_spec (status_code r) 200) as [E|E]; cbn [negb] in H.
  2:{ left. injection H as <- <-. exists r. auto. }
  right. exists r. split; [reflexivity|]. split; [exact E|].
  fold base_page_path in H. fold destdir_name in H.
  unfold write_file at 1 in H.
  remember (can_open base_page_path) as o eqn:Ho. destruct o.
  2:{ left. injection H as <- <-. auto. }
  right. split; [reflexivity|]. cbv zeta. unfold lift in H.
  destruct (collect_links args r) as [links|e].
  2:{ left. injection H as <- <-. eauto. }
  right.
  destruct (download_links d destdir_name (apply_ignore args links) (content r) []
              (set_file (realpath base_page_path) (content r) w1))
    as [[[page' created]|e] w3] eqn:Hl.
  - exists links, (Ok (page', created)), w3. split; [reflexivity|]. split; [exact Hl|].
    destruct (zip_step_grows d created (zip args) w3) as (w4 & Hz & _).
    rewrite Hz in H. unfold write_file in H. rewrite <- Ho in H.
    injection H as <- <-. split; [reflexivity|]. exists w4. auto.
  - exists links, (Raise e), w3. split; [reflexivity|]. split; [exact Hl|].
    injection H as <- <-. auto.
Qed.

Lemma index_has_no_slash : has_char "/" "index.html" = false.
Proof. reflexivity. Qed.

Lemma copy_page_grows u d args w res w' :
  copy_page u d args w = (res, w') -> grows d w w'.
Proof.
  intros H. apply copy_page_cases in H. cbv zeta in H.
  assert (H1 : grows d w (log_request u w)) by (apply grows_same_files; reflexivity).
  destruct H as [(e & _ & _ & ->)|[(r & _ & _ & _ & ->)|(r & _ & _ & H)]];
    [exact H1|exact H1|].
  destruct H as [(_ & _ & ->)|(_ & H)]; [exact H1|].
  assert (H2 : grows d w (set_file (realpath (path_join d "index.html")) (content r)
                            (log_request u w))).
  { eapply grows_trans; [exact H1|]. apply grows_set_file, index_has_no_slash. }
  destruct H as [(e & _ & _ & ->)|(links & lres & w3 & _ & Hl & H)]; [exact H2|].
  apply download_links_grows in Hl.
  assert (H3 : grows d w w3) by (eapply grows_trans; eassumption).
  destruct lres as [[page' created]|e].
  - destruct H as (_ & w4 & Hz & ->).
    destruct (zip_step_grows d created (zip args) w3) as (w4' & Hz' & Hf & Hd & _).
    rewrite Hz in Hz'. injection Hz' as <-.
    eapply grows_trans; [exact H3|]. eapply grows_trans.
    + apply grows_same_files; eassumption.
    + apply grows_set_file, index_has_no_slash.
  - destruct H as [_ ->]. exact H3.
Qed.

Lemma for_each_copy_page_grows d args urls : forall w res w',
  for_each urls (fun u => copy_page u d args) w = (res, w') -> grows d w w'.
Proof.
  induction urls as [|u urls IH]; intros w res w' H.
  - injection H as <- <-. apply grows_refl.
  - cbn [for_each] in H. unfold bind in H.
    destruct (copy_page u d args w) as [[[]|e] w1] eqn:Hc; apply copy_page_grows in Hc.
    + eapply grows_trans; [exact Hc|]. exact (IH _ _ _ H).
    + injection H as <- <-. exact Hc.
Qed.

Lemma for_each_app {A} (body : A -> M unit) l1 l2 : forall w w1,
  for_each l1 body w = (Ok tt, w1) ->
  for_each (l1 ++ l2) body w = for_each l2 body w1.
Proof.
  induction l1 as [|x l1 IH]; intros w w1 H.
  - injection H as <-. reflexivity.
  - cbn [for_each app] in H |- *. unfold bind in H |- *.
    destruct (body x w) as [[[]|e] w0]; [|discriminate]. apply IH, H.
Qed.

(** The public form of the step lemmas. *)
Lemma copy_page_effect u d args w res w' :
  copy_page u d args w = (res, w') ->
  dirs w' = dirs w
  /\ (forall k, is_Some (files w !! k) -> is_Some (files w' !! k))
  /\ writes_within d w w'.
Proof. apply copy_page_grows. Qed.

Lemma batch_effect d args urls w res w' :
  for_each urls (fun u => copy_page u d args) w = (res, w') ->
  dirs w' = dirs w
  /\ (forall k, is_Some (files w !! k) -> is_Some (files w' !! k))
  /\ writes_within d w w'.
Proof. apply for_each_copy_page_grows. Qed.

End Effects.

(** X11.  Whatever happens, a run of [main] writes, the archive apart
    (which the model keeps in [archives]), no file other than files named
    [os.path.join(destination_dir, f)] for an [f] without a slash,
    removes no file, and makes no directory other than the destination. *)
Theorem main_writes_in_destination `{rt : Runtime} (urls : list string)
    (destination_dir : string) (args : Args) (w : World)
    (res : result unit) (w' : World) :
  main urls destination_dir args w = (res, w') ->
  writes_within (abspath destination_dir) w w'
  /\ (forall k, is_Some (files w !! k) -> is_Some (files w' !! k))
  /\ (dirs w' = dirs w \/ dirs w' = {[abspath destination_dir]} ∪ dirs w).
Proof.
  unfold main, bind. intros H. case_bool_decide as Hd.
  - apply batch_effect in H as (Hdirs & Hk & Hw). auto.
  - unfold mkdir in H. destruct (can_mkdir (abspath destination_dir)).
    + apply batch_effect in H as (Hdirs & Hk & Hw). cbn [add_dir dirs files] in *.
      split; [exact Hw|]. split; [exact Hk|]. right. exact Hdirs.
    + injection H as <- <-. split; [intros k Hk; congruence|]. auto.
Qed.

Lemma main_writes_in_destination_witness :
  files (snd (@main page_rt ["http://x.com/"] "site"
                {| ignore_js := false; zip := true; ignore := None |} empty_world))
    !! "/etc/passwd" = None.
Proof.
  destruct (@main_writes_in_destination page_rt ["http://x.com/"] "site"
              {| ignore_js := false; zip := true; ignore := None |} empty_world
              (fst (@main page_rt ["http://x.com/"] "site"
                      {| ignore_js := false; zip := true; ignore := None |} empty_world))
              (snd (@main page_rt ["http://x.com/"] "site"
                      {| ignore_js := false; zip := true; ignore := None |} empty_world))
              eq_refl) as (H & _ & _).
  destruct (files (snd (@main page_rt ["http://x.com/"] "site"
                {| ignore_js := false; zip := true; ignore := None |} empty_world))
              !! "/etc/passwd") as [data|] eqn:E; [|reflexivity].
  destruct (H "/etc/passwd") as (f & Hf & Hk); [rewrite E; discriminate|].
  exfalso. apply (f_equal (fun s => startswith s "/home/u/site/")) in Hk.
  change (@abspath page_rt "site") with "/home/u/site" in Hk.
  assert (Hs : startswith f "/" = false).
  { destruct f as [|c f]; [reflexivity|]. cbn [has_char] in Hf. cbn [startswith].
    rewrite Ascii.eqb_sym. destruct (Ascii.eqb c "/"); [discriminate|reflexivity]. }
  unfold path_join in Hk. rewrite Hs in Hk. cbn in Hk. discriminate Hk.
Defined.

(** X12.  Whatever happens, the first request of [copy_page] is the page,
    and the requests after it are resources of the page: the URLs of the
    pairs kept by the ignore filter, in their order, from the first one up
    to the point where the loop ends, and all of them when [copy_page]
    ends without an exception.  (The URL of the page can be one of them,
    and is then requested again.)  There is none when the page is not
    answered with status 200 or its links cannot be collected. *)
Theorem copy_page_requests `{rt : Runtime} (u destination_dir : string) (args : Args)
    (w : World) (res : result unit) (w' : World) :
  copy_page u destination_dir args w = (res, w') ->
  exists l, history w' = history w ++ u :: l
    /\ match attempt w u 0 with
       | Raise e => l = [] /\ res = Raise e
       | Ok r =>
           if (status_code r =? 200)%Z
           then match collect_links args r with
                | Raise e => l = []
                | Ok links =>
                    l `prefix_of` map fst (apply_ignore args links)
                    /\ (res = Ok tt -> l = map fst (apply_ignore args links))
                end
           else l = [] /\ res = Ok tt
       end.
Proof.
  intros H. apply copy_page_cases in H. cbv zeta in H.
  assert (H0 : history (log_request u w) = history w ++ [u]) by reflexivity.
  destruct H as [(e & -> & -> & ->)|[(r & -> & Hn & -> & ->)|(r & -> & H200 & H)]].
  - exists []. auto.
  - exists []. destruct (Z.eqb_spec (status_code r) 200); [contradiction|auto].
  - rewrite H200. change (200 =? 200)%Z with true. cbv iota.
    destruct H as [(_ & -> & ->)|(_ & H)].
    { exists []. split; [exact H0|]. destruct (collect_links args r); [|reflexivity].
      split; [apply prefix_nil|discriminate]. }
    destruct H as [(e & -> & _ & ->)|(links & lres & w3 & -> & Hl & H)];
      [exists []; auto|].
    apply download_links_requests in Hl as (l & Hl & Hp & Hall).
    cbn [set_file history] in Hl. rewrite H0, <- app_assoc in Hl. cbn [app] in Hl.
    destruct lres as [[page' created]|e].
    + destruct H as (_ & w4 & Hz & ->).
      assert (Hw : history w4 = history w3).
      { destruct (zip_files_writes created destination_dir w3) as (wz & Hz' & _ & Hh & _).
        destruct (zip args); [|injection Hz as <-; reflexivity].
        rewrite Hz in Hz'. injection Hz' as <-. exact Hh. }
      exists l. cbn [set_file history]. rewrite Hw. split; [exact Hl|].
      split; [exact Hp|]. intros _. eapply Hall. reflexivity.
    + destruct H as [-> ->]. exists l. split; [exact Hl|]. split; [exact Hp|discriminate].
Qed.

(** On the example site the page is requested, then its image and its
    stylesheet. *)
Lemma copy_page_requests_witness :
  history (snd (@copy_page page_rt "http://x.com/" "/home/u/site"
                  {| ignore_js := false; zip := false; ignore := None |}
                  empty_world))
  = ["http://x.com/"; "http://x.com/a.png"; "http://x.com/s.css"].
Proof.
  destruct (@copy_page_requests page_rt "http://x.com/" "/home/u/site"
              {| ignore_js := false; zip := false; ignore := None |} empty_world
              (fst (@copy_page page_rt "http://x.com/" "/home/u/site"
                      {| ignore_js := false; zip := false; ignore := None |}
                      empty_world))
              (snd (@copy_page page_rt "http://x.com/" "/home/u/site"
                      {| ignore_js := false; zip := false; ignore := None |}
                      empty_world)) eq_refl) as (l & Hl & H).
  vm_compute in H. destruct H as [_ H]. rewrite Hl, (H eq_refl). reflexivity.
Defined.

(** X13.  Once the page is fetched with status 200 and [index.html] can be
    opened, the page file exists however [copy_page] ends; and when the
    extraction of the links raises, the file holds the bytes of the page
    as they were fetched and nothing but the page has been requested. *)
Theorem page_written_first `{rt : Runtime} (u destination_dir : string) (args : Args)
    (w : World) (r : Response) (res : result unit) (w' : World) :
  attempt w u 0 = Ok r -> status_code r = 200%Z ->
  can_open (path_join destination_dir "index.html") = true ->
  copy_page u destination_dir args w = (res, w') ->
  is_Some (files w' !! realpath (path_join destination_dir "index.html"))
  /\ (forall e, collect_links args r = Raise e ->
        res = Raise e
        /\ files w' !! realpath (path_join destination_dir "index.html")
           = Some (content r)
        /\ history w' = history w ++ [u]).
Proof.
  intros Ha H200 Ho H. apply copy_page_cases in H. cbv zeta in H.
  destruct H as [(e & Ha' & _)|[(r' & Ha' & Hn & _)|(r' & Ha' & _ & H)]];
    [congruence|congruence|].
  assert (r' = r) as -> by congruence.
  destruct H as [(Ho' & _)|(_ & H)]; [congruence|].
  assert (Hidx : files (set_file (realpath (path_join destination_dir "index.html"))
                          (content r) (log_request u w))
                   !! realpath (path_join destination_dir "index.html")
                 = Some (content r)) by apply lookup_insert_eq.
  destruct H as [(e & Hc & -> & ->)|(links & lres & w3 & Hc & Hl & H)].
  - split; [rewrite Hidx; eauto|]. intros e' He'.
    assert (e' = e) as -> by congruence. auto.
  - split; [|intros e He; congruence].
    apply download_links_grows in Hl as (_ & Hk & _).
    destruct lres as [[page' created]|e].
    + destruct H as (_ & w4 & _ & ->). cbn [set_file files].
      rewrite lookup_insert_eq. eauto.
    + destruct H as [_ ->]. apply Hk. rewrite Hidx. eauto.
Qed.

Lemma page_written_first_witness :
  files (snd (@copy_page bare_link_rt "http://x.com/" "/home/u/site"
                {| ignore_js := false; zip := false; ignore := None |} empty_world))
    !! "/home/u/site/index.html" = Some "<link rel='stylesheet'>".
Proof.
  destruct (@page_written_first bare_link_rt "http://x.com/" "/home/u/site"
              {| ignore_js := false; zip := false; ignore := None |} empty_world
              {| status_code := 200; url := "http://x.com/";
                 chunks := ["<link rel='stylesheet'>"] |}
              (fst (@copy_page bare_link_rt "http://x.com/" "/home/u/site"
                      {| ignore_js := false; zip := false; ignore := None |}
                      empty_world))
              (snd (@copy_page bare_link_rt "http://x.com/" "/home/u/site"
                      {| ignore_js := false; zip := false; ignore := None |}
                      empty_world))
              eq_refl eq_refl eq_refl eq_refl) as [_ H].
  destruct (H (KeyError "href") eq_refl) as (_ & Hf & _). exact Hf.
Defined.

(** ** The archive of a page *)

Lemma download_links_files `{rt : Runtime} d n links :
  forall page created w page' created' w',
  download_links d n links page created w = (Ok (page', created'), w') ->
  forall p, p ∈ downloaded d links w ->
    is_Some (files w' !! realpath (path_join d (get_usable_filename_from_url (fst p)))).
Proof.
  induction links as [|[link rel_link] links IH];
    intros page created w page' created' w' H p Hp.
  - inversion Hp.
  - cbn [download_links downloaded] in H, Hp.
    destruct (download_media link _ w) as [[[]|e] w1] eqn:Hd.
    + destruct (re_sub_escaped rel_link _ page) as [page1|e]; [|discriminate].
      apply elem_of_cons in Hp as [->|Hp]; [|exact (IH _ _ _ _ _ _ H p Hp)].
      cbn [fst]. apply download_links_grows in H as (_ & Hk & _). apply Hk.
      unfold download_media in Hd.
      destruct (server (history w) link) as [r cut|e]; [|discriminate].
      destruct (can_open _); [|discriminate].
      destruct cut; [discriminate|]. injection Hd as <-.
      cbn [set_file files]. rewrite lookup_insert_eq. eauto.
    + exact (IH _ _ _ _ _ _ H p Hp).
Qed.

(** X14.  When a page is archived with [zip] set, the archive can be
    opened, and a name relative to the last component of the destination
    designates the file of that name in the destination (as it does when
    the destination is the working directory or lies directly in it), a
    run of [copy_page] that ends normally leaves an archive with exactly
    one member for each download that succeeded, in the order of the
    downloads. *)
Theorem archive_holds_downloads `{rt : Runtime} (u destination_dir : string)
    (args : Args) (w w' : World) (r : Response) :
  let destdir_name :=
    if String.eqb getcwd destination_dir then "." else path_tail destination_dir in
  let base_page_path := path_join destination_dir "index.html" in
  attempt w u 0 = Ok r -> status_code r = 200%Z ->
  zip args = true ->
  can_open (zipfile_name_of destination_dir) = true ->
  (forall f, has_char "/" f = false ->
             realpath (path_join destdir_name f) = realpath (path_join destination_dir f)) ->
  copy_page u destination_dir args w = (Ok tt, w') ->
  exists links members,
    collect_links args r = Ok links
    /\ archives w' !! realpath (zipfile_name_of destination_dir) = Some members
    /\ map fst members
       = map (packaged_name destdir_name)
           (downloaded destination_dir (apply_ignore args links)
              (set_file (realpath base_page_path) (content r) (log_request u w))).
Proof.
  intros destdir_name base_page_path Ha H200 Hzip Hopen Hres H.
  apply copy_page_cases in H. cbv zeta in H.
  fold destdir_name in H. fold base_page_path in H.
  destruct H as [(e & _ & He & _)|[(r' & Ha' & Hn & _)|(r' & Ha' & _ & H)]];
    [discriminate|congruence|].
  assert (r' = r) as -> by congruence.
  destruct H as [(_ & He & _)|(_ & H)]; [discriminate|].
  destruct H as [(e & _ & He & _)|(links & lres & w3 & Hc & Hl & H)]; [discriminate|].
  destruct lres as [[page' created]|e]; [|destruct H; discriminate].
  destruct H as (_ & w4 & Hz & ->). rewrite Hzip in Hz.
  destruct (zip_files_writes created destination_dir w3) as (wz & Hz' & _ & _ & _ & Hm).
  rewrite Hz in Hz'. injection Hz' as <-. specialize (Hm Hopen).
  pose proof (proj2 (proj2 (zip_members_spec (files w3) created))) as Hall.
  exists links, (zip_members (files w3) created).
  split; [exact Hc|]. split; [exact Hm|].
  pose proof (download_links_files _ _ _ _ _ _ _ _ _ Hl) as Hfiles.
  apply download_links_ok in Hl as (_ & Hcreated & _). cbn [app] in Hcreated.
  rewrite <- Hcreated. apply Hall. intros f Hf. rewrite Hcreated in Hf.
  apply list_elem_of_fmap in Hf as (p & -> & Hp). unfold packaged_name.
  rewrite Hres by apply filename_no_slash. exact (Hfiles p Hp).
Qed.

Lemma archive_holds_downloads_witness :
  exists members,
    archives (snd (@copy_page page_rt "http://x.com/" "/home/u/site"
                     {| ignore_js := false; zip := true; ignore := None |}
                     (add_dir "/home/u/site" empty_world)))
      !! "/home/u/site.zip" = Some members
    /\ map fst members = ["site/x.com_a.png"; "site/x.com_s.css"].
Proof.
  destruct (@archive_holds_downloads page_rt "http://x.com/" "/home/u/site"
              {| ignore_js := false; zip := true; ignore := None |}
              (add_dir "/home/u/site" empty_world)
              (snd (@copy_page page_rt "http://x.com/" "/home/u/site"
                      {| ignore_js := false; zip := true; ignore := None |}
                      (add_dir "/home/u/site" empty_world)))
              {| status_code := 200; url := "http://x.com/"; chunks := [page_html] |}
              eq_refl eq_refl eq_refl eq_refl)
    as (links & members & Hc & Hm & Hn).
  - intros f Hf.
    assert (Hs : startswith f "/" = false).
    { destruct f as [|c f]; [reflexivity|]. cbn [has_char] in Hf. cbn [startswith].
      rewrite Ascii.eqb_sym. destruct (Ascii.eqb c "/"); [discriminate|reflexivity]. }
    change (if String.eqb (@getcwd page_rt) "/home/u/site" then "."
            else path_tail "/home/u/site") with "site".
    unfold path_join. rewrite Hs. reflexivity.
  - vm_compute. reflexivity.
  - exists members. split; [exact Hm|].
    vm_compute in Hc. injection Hc as <-. rewrite Hn. vm_compute. reflexivity.
Defined.

(** ** Batches *)

(** X15.  A batch that ends normally can be cut anywhere: running [main]
    on the pages of two lists in a row is running it on the first list
    and then, from the world this leaves, on the second.  The destination
    made by the first run is found by the second, which makes none. *)
Theorem main_in_two_runs `{rt : Runtime} (urls1 urls2 : list string)
    (destination_dir : string) (args : Args) (w w1 : World) :
  main urls1 destination_dir args w = (Ok tt, w1) ->
  abspath destination_dir ∈ dirs w1
  /\ main (urls1 ++ urls2) destination_dir args w = main urls2 destination_dir args w1.
Proof.
  intros H.
  assert (Hrun : forall w0, abspath destination_dir ∈ dirs w0 ->
            for_each urls1 (fun u => copy_page u (abspath destination_dir) args) w0
            = (Ok tt, w1) ->
            abspath destination_dir ∈ dirs w1
            /\ for_each (urls1 ++ urls2)
                 (fun u => copy_page u (abspath destination_dir) args) w0
               = main urls2 destination_dir args w1).
  { intros w0 Hin Hf. pose proof (batch_effect _ _ _ _ _ _ Hf) as (Hd & _).
    assert (Hin1 : abspath destination_dir ∈ dirs w1) by (rewrite Hd; exact Hin).
    split; [exact Hin1|]. unfold main, bind.
    rewrite bool_decide_eq_true_2 by exact Hin1. apply for_each_app, Hf. }
  unfold main in H. unfold main at 1. unfold bind in H |- *. case_bool_decide as Hd.
  - exact (Hrun w Hd H).
  - unfold mkdir in H |- *. destruct (can_mkdir (abspath destination_dir)); [|discriminate].
    apply Hrun; [|exact H]. cbn [add_dir dirs]. apply elem_of_union_l, elem_of_singleton.
    reflexivity.
Qed.

Lemma main_in_two_runs_witness :
  @main missing_rt (["http://x.com/a"] ++ ["http://x.com/b"]) "site"
    {| ignore_js := false; zip := false; ignore := None |} empty_world
  = @main missing_rt ["http://x.com/b"] "site"
      {| ignore_js := false; zip := false; ignore := None |}
      (log_request "http://x.com/a" (add_dir "/home/u/site" empty_world)).
Proof.
  destruct (@main_in_two_runs missing_rt ["http://x.com/a"] ["http://x.com/b"] "site"
              {| ignore_js := false; zip := false; ignore := None |} empty_world
              (log_request "http://x.com/a" (add_dir "/home/u/site" empty_world))
              eq_refl) as [_ H].
  exact H.
Defined.

(** ** Scripts *)

(** X16.  [get_js_links] reads the [src] value of every [script] tag; a
    script without [src] gives nothing.  It returns exactly when [urljoin]
    accepts every such value that does not start with [http], with each
    pair once and exactly the pairs of these values; otherwise it raises
    what [urljoin] raises on one of them.  With [ignore_js] set the scripts
    are not read at all: no [src] of a script can make the collection of
    the links of a page fail.  Without it, a script whose [src] cannot be
    resolved makes the collection fail, whatever the other tags are. *)
Theorem script_links `{rt : Runtime} (soup : list Tag) (r : Response) (args : Args) :
  let read src :=
    exists t, t ∈ soup /\ tag_name t = "script" /\ attrs t !! "src" = Some src in
  links_of r read (get_js_links soup r)
  /\ ((forall src, read src -> exists u, resolves r src u)
      <-> exists links, get_js_links soup r = Ok links)
  /\ (forall t, attrs t !! "src" = None ->
        get_js_links (t :: soup) r = get_js_links soup r)
  /\ (ignore_js args = true ->
      forall img css source,
        get_img_links (parse_html (content r)) r = Ok img ->
        get_stylesheet_links (parse_html (content r)) r = Ok css ->
        get_source_links (parse_html (content r)) r = Ok source ->
        collect_links args r = Ok (img ++ css ++ source))
  /\ (ignore_js args = false ->
      (exists e, get_js_links (parse_html (content r)) r = Raise e) ->
      exists e, collect_links args r = Raise e).
Proof.
  intros read.
  set (srcs := omap (fun t => attrs t !! "src") (find_all "script" soup)).
  assert (Hread : forall src, src ∈ srcs <-> read src).
  { intros src. unfold srcs, read, find_all. rewrite list_elem_of_omap. split.
    - intros (t & Ht & Hs). apply list_elem_of_filter in Ht as [Hn Ht]. eauto.
    - intros (t & Ht & Hn & Hs). exists t. split; [|exact Hs].
      apply list_elem_of_filter. auto. }
  destruct (links_of_references r srcs) as [Hl Hr].
  apply (links_of_ext r _ read _ Hread) in Hl.
  split; [exact Hl|]. split; [|split; [|split]].
  - split.
    + intros Hall. destruct Hr as [ps Hps].
      * intros src Hs. apply Hall, Hread, Hs.
      * exists (set_list ps). unfold get_js_links. fold srcs. rewrite Hps. reflexivity.
    + intros [links H]. unfold get_js_links in H. fold srcs in H.
      destruct (resolve_all r srcs) as [ps|e]; [|discriminate].
      destruct Hl as (_ & Hall & _). exact Hall.
  - intros t Hs. unfold get_js_links, find_all. rewrite filter_cons.
    case_decide; [|reflexivity]. cbn [omap list_omap]. rewrite Hs. reflexivity.
  - intros Hjs img css source Hi Hc Hso. unfold collect_links.
    rewrite Hi, Hc, Hso, Hjs. reflexivity.
  - intros Hjs [e He]. unfold collect_links. rewrite Hjs, He. cbn [negb].
    destruct (get_img_links _ r); [|eauto].
    destruct (get_stylesheet_links _ r); [|eauto].
    destruct (get_source_links _ r); eauto.
Qed.
